(** * spin-the-bottle-api: the room coordinator of [server.js]

    A shallow embedding of the socket handlers of [server.js] and of the
    helpers they call ([emitState], [seededPick], [genCode], [sanitizeName],
    [uniqueName]), followed by the properties of the room life cycle and of
    the spin scheduling that the specification states.

    Conventions of the embedding.
    - JavaScript numbers that hold integers (timestamps, counters, indices)
      are [Z]; the 32-bit bitwise operators are written out with their
      wrap-around.
    - [Math.random()] is a rational [r] with [0 <= r < 1], passed to the
      function that draws it; arithmetic on it is exact.
    - A JavaScript string is a [string] of code units below 256.
    - A [Map] is an association list in insertion order: [Map.set] on a key
      already present replaces the value where it stands, on a new key it
      appends.
    - A handler is a function from the registry of rooms to the new registry
      and the list of what it sent, in the order it sent it. *)

From Stdlib Require Import ZArith QArith Qround Bool List Lia.
From Stdlib Require Import Ascii String DecimalString.
From Stdlib Require Import Sorting.Sorted Sorting.Permutation.
From Stdlib Require Import Relations.Relation_Operators.
Import ListNotations.

Local Open Scope Z_scope.

(** ** JavaScript primitives *)

Module JS.

(** [ToInt32]: reduction modulo [2^32] into [[-2^31, 2^31)]. *)
Definition toInt32 (z : Z) : Z := (z + 2^31) mod 2^32 - 2^31.

(** [a ^ b] *)
Definition xor (a b : Z) : Z := Z.lxor (toInt32 a) (toInt32 b).

(** [a << k] *)
Definition shl (a k : Z) : Z := toInt32 (Z.shiftl (toInt32 a) (k mod 32)).

(** [a >> k], which keeps the sign *)
Definition sar (a k : Z) : Z := Z.shiftr (toInt32 a) (k mod 32).

(** [a % b] on integers: the remainder has the sign of [a]. *)
Definition rem (a b : Z) : Z := Z.rem a b.

(** [Math.floor] of a rational. *)
Definition floor (q : Q) : Z := Qfloor q.

(** [q | 0]: truncation towards zero, then [ToInt32]. *)
Definition truncInt32 (q : Q) : Z :=
  toInt32 (if Qle_bool 0 q then Qfloor q else Qceiling q).

(** Truthiness of a number-or-null field: [null] and [0] are falsy. *)
Definition truthyNum (o : option Z) : bool :=
  match o with
  | Some t => negb (t =? 0)
  | None => false
  end.

(** Truthiness of a string-or-undefined value: [undefined] and the empty
    string are falsy. The truthy value is returned. *)
Definition truthyStr (o : option string) : option string :=
  match o with
  | Some s => if String.eqb s EmptyString then None else Some s
  | None => None
  end.

(** [String(n)] for an integer [n]. *)
Definition numToString (n : Z) : string :=
  NilZero.string_of_int (Z.to_int n).

(** The code units that [\s] and [trim] treat as white space (below 256):
    tab, line feed, vertical tab, form feed, carriage return, space and
    no-break space. *)
Definition isWhiteSpace (c : ascii) : bool :=
  let n := N_of_ascii c in
  (((9 <=? n) && (n <=? 13)) || (n =? 32) || (n =? 160))%N.

Fixpoint trimStart (s : string) : string :=
  match s with
  | EmptyString => EmptyString
  | String c t => if isWhiteSpace c then trimStart t else s
  end.

Fixpoint trimEnd (s : string) : string :=
  match s with
  | EmptyString => EmptyString
  | String c t =>
      match trimEnd t with
      | EmptyString => if isWhiteSpace c then EmptyString else String c EmptyString
      | t' => String c t'
      end
  end.

(** [s.trim()] *)
Definition trim (s : string) : string := trimEnd (trimStart s).

(** [s.replace(/\s+/g, ' ')]: every maximal run of white space becomes one
    space. [inRun] tells that the previous code unit was white space. *)
Fixpoint replaceRuns (inRun : bool) (s : string) : string :=
  match s with
  | EmptyString => EmptyString
  | String c t =>
      if isWhiteSpace c
      then if inRun then replaceRuns true t
           else String " " (replaceRuns true t)
      else String c (replaceRuns false t)
  end.

Definition collapseWhiteSpace (s : string) : string := replaceRuns false s.

(** [s.slice(0, n)] *)
Definition slice0 (n : nat) (s : string) : string := substring 0 n s.

(** [toLowerCase] on one code unit below 256: A-Z and the accented capitals
    of Latin-1 (all of 0xC0-0xDE but the multiplication sign 0xD7). *)
Definition lowerChar (c : ascii) : ascii :=
  let n := N_of_ascii c in
  if (((65 <=? n) && (n <=? 90))
      || ((192 <=? n) && (n <=? 222) && negb (n =? 215)))%N
  then ascii_of_N (n + 32) else c.

Fixpoint toLowerCase (s : string) : string :=
  match s with
  | EmptyString => EmptyString
  | String c t => String (lowerChar c) (toLowerCase t)
  end.

(** [s[i]] *)
Definition charAt (s : string) (i : Z) : option ascii :=
  if i <? 0 then None else String.get (Z.to_nat i) s.

End JS.

(** ** Maps in insertion order *)

Section JsMap.
Context {V : Type}.

Definition jsmap := list (string * V).

Fixpoint map_get (k : string) (m : jsmap) : option V :=
  match m with
  | [] => None
  | (k', v) :: t => if String.eqb k' k then Some v else map_get k t
  end.

Definition map_has (k : string) (m : jsmap) : bool :=
  match map_get k m with Some _ => true | None => false end.

Fixpoint map_set (k : string) (v : V) (m : jsmap) : jsmap :=
  match m with
  | [] => [(k, v)]
  | (k', v') :: t =>
      if String.eqb k' k then (k, v) :: t else (k', v') :: map_set k v t
  end.

Definition map_delete (k : string) (m : jsmap) : jsmap :=
  filter (fun e => negb (String.eqb (fst e) k)) m.

Definition map_keys (m : jsmap) : list string := List.map fst m.

Definition map_values (m : jsmap) : list V := List.map snd m.
End JsMap.

Arguments jsmap : clear implicits.

(** ** Data model *)

Record user := mkUser { id : string; name : string; joinedAt : Z }.

Record room := mkRoom {
  users : jsmap user;
  hostId : string;
  spins : Z;
  lockUntil : option Z;
  pendingHostId : option string
}.

Definition registry := jsmap room.

Definition set_users (r : room) (u : jsmap user) : room :=
  mkRoom u (hostId r) (spins r) (lockUntil r) (pendingHostId r).

Definition set_hostId (r : room) (h : string) : room :=
  mkRoom (users r) h (spins r) (lockUntil r) (pendingHostId r).

(** What a handler sends. *)

Inductive target :=
| ToSocket (socketId : string)
| ToRoom (roomId : string).

Inductive payload :=
| RoomState (roomId : string) (members : list user) (host : string)
            (spinCount : Z) (lock : option Z)
| SpinStart (orderIds : list string) (targetIndex durationMs turns startAt : Z)
            (nextHostId : string) (hostSwitchAt spinCount : Z)
| SpinDenied (reason : string)
| JoinError (reason : string).

Inductive ack :=
| AckRoom (roomId : string)
| AckOk
| AckFail
| AckNotFound
| AckName (name : string).

Inductive output :=
| Emit (to : target) (p : payload)
| Ack (a : ack)
| SocketJoin (socketId roomId : string)
| SocketLeave (socketId roomId : string)
| SetTimeout (roomId : string) (delay : Z).

(** ** Helpers of [server.js] *)

(** [arr.sort((a,b) => a.joinedAt - b.joinedAt)]: a stable sort by join
    time. *)
Fixpoint insertByJoin (u : user) (l : list user) : list user :=
  match l with
  | [] => [u]
  | v :: t =>
      if joinedAt u <=? joinedAt v then u :: l else v :: insertByJoin u t
  end.

Fixpoint sortByJoin (l : list user) : list user :=
  match l with
  | [] => []
  | u :: t => insertByJoin u (sortByJoin t)
  end.

Definition roomState (roomId : string) (r : room) : payload :=
  RoomState roomId (sortByJoin (map_values (users r))) (hostId r) (spins r)
            (if JS.truthyNum (lockUntil r) then lockUntil r else None).

Definition emitState (roomId : string) (rooms : registry) : list output :=
  match map_get roomId rooms with
  | None => []
  | Some r => [Emit (ToRoom roomId) (roomState roomId r)]
  end.

Definition seededPick (seed n : Z) : Z :=
  let x := JS.xor seed 0x9e3779b9 in
  let x := JS.xor x (JS.shl x 13) in
  let x := JS.xor x (JS.sar x 17) in
  let x := JS.xor x (JS.shl x 5) in
  JS.rem (Z.abs x) n.

Definition alphabet : string := "ABCDEFGHJKMNPQRSTUVWXYZ23456789".

(** One pass of the loop of [genCode]: a code unit per draw. A draw that
    indexes outside the alphabet would append "undefined". *)
Fixpoint drawCode (draws : list Q) : string :=
  match draws with
  | [] => EmptyString
  | r :: t =>
      let i := JS.truncInt32 (r * inject_Z (Z.of_nat (String.length alphabet))) in
      match JS.charAt alphabet i with
      | Some c => String c (drawCode t)
      | None => ("undefined" ++ drawCode t)%string
      end
  end.

(** [genCode]: [rnd k] is the [k]-th value that [Math.random()] returns from
    now on; the result comes with the number of values drawn. The recursion
    of the source has no bound: [fuel] bounds the number of attempts, and
    [None] stands for a run that needs more. *)
Fixpoint genCode (fuel : nat) (rnd : nat -> Q) (pos : nat) (rooms : registry)
  : option (string * nat) :=
  match fuel with
  | O => None
  | S fuel' =>
      let code := drawCode (List.map rnd (seq pos 6)) in
      if map_has code rooms then genCode fuel' rnd (pos + 6) rooms
      else Some (code, (pos + 6)%nat)
  end.

Definition sanitizeName (r : Q) (raw : option string) : string :=
  let s := JS.collapseWhiteSpace
             (JS.trim (match raw with Some v => v | None => EmptyString end)) in
  let capped := JS.slice0 20 s in
  if String.eqb capped EmptyString then
    ("Player " ++ JS.numToString (JS.floor (100 + r * 900)))%string
  else capped.

(** The set [taken] of [uniqueName]: the names of all the users of the room,
    in lower case. *)
Definition takenNames (r : room) : list string :=
  List.map (fun u => JS.toLowerCase (name u)) (map_values (users r)).

Definition set_has (s : string) (l : list string) : bool :=
  existsb (String.eqb s) l.

(** [`${baseName} ${i}`] *)
Definition candidate (baseName : string) (i : nat) : string :=
  (baseName ++ " " ++ JS.numToString (Z.of_nat i))%string.

(** [uniqueName]: the loop [for (let i = 2; i < 99; i++)] visits 2, ..., 98
    and returns at the first candidate that is not taken. *)
Definition uniqueName (r : room) (baseName : string) : string :=
  let taken := takenNames r in
  if negb (set_has (JS.toLowerCase baseName) taken) then baseName
  else
    match find (fun i => negb (set_has (JS.toLowerCase (candidate baseName i)) taken))
               (seq 2 97) with
    | Some i => candidate baseName i
    | None => (baseName ++ " *")%string
    end.

(** ** The socket handlers

    [sid] is [socket.id]; [now], [seed] and [later] are the successive values
    of [Date.now()] in one run of a handler. *)

Definition newUser (sid clean : string) (now : Z) : user := mkUser sid clean now.

(** [create_room]: [rnd] feeds [genCode] first, then [sanitizeName]. *)
Definition create_room (sid : string) (raw : option string) (now : Z)
    (fuel : nat) (rnd : nat -> Q) (rooms : registry)
  : option (registry * list output) :=
  match genCode fuel rnd 0 rooms with
  | None => None
  | Some (roomId, pos) =>
      let r := mkRoom [] sid 0 None None in
      let clean := uniqueName r (sanitizeName (rnd pos) raw) in
      let r := set_users r (map_set sid (newUser sid clean now) (users r)) in
      let rooms := map_set roomId r rooms in
      Some (rooms,
            [SocketJoin sid roomId; Ack (AckRoom roomId)] ++ emitState roomId rooms)
  end.

Definition join_room (sid roomId : string) (raw : option string) (now : Z)
    (rnd : Q) (rooms : registry) : registry * list output :=
  match map_get roomId rooms with
  | None => (rooms, [Ack AckNotFound; Emit (ToSocket sid) (JoinError "Room not found")])
  | Some r =>
      let clean := uniqueName r (sanitizeName rnd raw) in
      let r := set_users r (map_set sid (newUser sid clean now) (users r)) in
      let rooms := map_set roomId r rooms in
      (rooms, [SocketJoin sid roomId; Ack (AckRoom roomId)] ++ emitState roomId rooms)
  end.

(** [[...room.users.keys()][0]], kept when truthy. *)
Definition firstKey (r : room) : option string :=
  JS.truthyStr (hd_error (map_keys (users r))).

Definition leave_room (sid roomId : string) (rooms : registry)
  : registry * list output :=
  match map_get roomId rooms with
  | None => (rooms, [Ack AckOk])
  | Some r =>
      let r := set_users r (map_delete sid (users r)) in
      if String.eqb (hostId r) sid then
        match firstKey r with
        | Some next =>
            let rooms := map_set roomId (set_hostId r next) rooms in
            (rooms, [SocketLeave sid roomId] ++ emitState roomId rooms ++ [Ack AckOk])
        | None => (map_delete roomId rooms, [SocketLeave sid roomId; Ack AckOk])
        end
      else
        let rooms := map_set roomId r rooms in
        (rooms, [SocketLeave sid roomId] ++ emitState roomId rooms ++ [Ack AckOk])
  end.

Definition set_name (sid roomId : string) (raw : option string) (rnd : Q)
    (rooms : registry) : registry * list output :=
  match map_get roomId rooms with
  | None => (rooms, [Ack AckFail])
  | Some r =>
      match map_get sid (users r) with
      | None => (rooms, [Ack AckFail])
      | Some u =>
          let clean := uniqueName r (sanitizeName rnd raw) in
          let u := mkUser (id u) clean (joinedAt u) in
          let rooms := map_set roomId (set_users r (map_set sid u (users r))) rooms in
          (rooms, emitState roomId rooms ++ [Ack (AckName clean)])
      end
  end.

(** [!room.lockUntil || now >= room.lockUntil] *)
Definition finished (r : room) (now : Z) : bool :=
  negb (JS.truthyNum (lockUntil r))
  || match lockUntil r with Some t => t <=? now | None => false end.

(** [room.lockUntil && now < room.lockUntil] *)
Definition locked (r : room) (now : Z) : bool :=
  JS.truthyNum (lockUntil r)
  && match lockUntil r with Some t => now <? t | None => false end.

Definition isCurrentHost (r : room) (sid : string) : bool :=
  String.eqb (hostId r) sid.

Definition isPendingWinnerNowHost (r : room) (sid : string) (now : Z) : bool :=
  match pendingHostId r with
  | Some p => String.eqb p sid && finished r now
  | None => false
  end.

(** The turn order: the users by join time, the first ten of them. *)
Definition turnOrder (r : room) : list user :=
  firstn 10 (sortByJoin (map_values (users r))).

Definition spin_request (sid roomId : string) (now seed later : Z)
    (rndTurns rndDuration : Q) (rooms : registry) : registry * list output :=
  match map_get roomId rooms with
  | None => (rooms, [])
  | Some r =>
      if negb (isCurrentHost r sid) && negb (isPendingWinnerNowHost r sid now)
      then (rooms, [])
      else if locked r now
      then (rooms, [Emit (ToSocket sid) (SpinDenied "A spin is already in progress.")])
      else
        let order := turnOrder r in
        if Z.of_nat (List.length order) <? 2
        then (rooms, [Emit (ToSocket sid) (SpinDenied "Need at least 2 players.")])
        else
          let spins' := spins r + 1 in
          let targetIndex := seededPick seed (Z.of_nat (List.length order)) in
          match nth_error order (Z.to_nat targetIndex) with
          | None => (map_set roomId
                       (mkRoom (users r) (hostId r) spins' (lockUntil r) (pendingHostId r))
                       rooms, [])
          | Some winner =>
              let winnerId := id winner in
              let turns := 4 + JS.floor (rndTurns * 2) in
              let durationMs := 3400 + JS.floor (rndDuration * 400) in
              let startAt := now + 600 in
              let hostSwitchAt := startAt + durationMs + 250 in
              let r' := mkRoom (users r) (hostId r) spins'
                               (Some hostSwitchAt) (Some winnerId) in
              (map_set roomId r' rooms,
               [Emit (ToRoom roomId)
                     (SpinStart (List.map id order) targetIndex durationMs turns
                                startAt winnerId hostSwitchAt spins');
                SetTimeout roomId (Z.max 0 (hostSwitchAt - later))])
          end
  end.

(** The callback that [spin_request] hands to [setTimeout]. *)
Definition spin_commit (roomId : string) (rooms : registry)
  : registry * list output :=
  match map_get roomId rooms with
  | None => (rooms, [])
  | Some r =>
      let stillHere :=
        match pendingHostId r with
        | Some p => map_has p (users r)
        | None => false
        end in
      let host :=
        match pendingHostId r, stillHere with
        | Some p, true => p
        | _, _ => match firstKey r with Some k => k | None => hostId r end
        end in
      let rooms := map_set roomId (mkRoom (users r) host (spins r) None None) rooms in
      (rooms, emitState roomId rooms)
  end.

(** [disconnect]: the loop over the rooms, on the keys it visits. A room is
    deleted only when it is the one visited, and none is added. *)
Fixpoint disconnect_loop (sid : string) (keys : list string) (rooms : registry)
  : registry * list output :=
  match keys with
  | [] => (rooms, [])
  | roomId :: keys' =>
      match map_get roomId rooms with
      | None => disconnect_loop sid keys' rooms
      | Some r =>
          if negb (map_has sid (users r)) then disconnect_loop sid keys' rooms
          else
            let r := set_users r (map_delete sid (users r)) in
            if String.eqb (hostId r) sid then
              match firstKey r with
              | Some next =>
                  let rooms := map_set roomId (set_hostId r next) rooms in
                  let (rooms', out) := disconnect_loop sid keys' rooms in
                  (rooms', emitState roomId rooms ++ out)
              | None => disconnect_loop sid keys' (map_delete roomId rooms)
              end
            else
              let rooms := map_set roomId r rooms in
              let (rooms', out) := disconnect_loop sid keys' rooms in
              (rooms', emitState roomId rooms ++ out)
      end
  end.

Definition disconnect (sid : string) (rooms : registry) : registry * list output :=
  disconnect_loop sid (map_keys rooms) rooms.

(** ** The server as a transition system

    The state is the registry and the callbacks that [setTimeout] holds, each
    known by the room code it closed over. *)

Record world := mkWorld { w_rooms : registry; w_timers : list string }.

Inductive request :=
| CreateRoom (raw : option string) (now : Z) (fuel : nat) (rnd : nat -> Q)
| JoinRoom (roomId : string) (raw : option string) (now : Z) (rnd : Q)
| LeaveRoom (roomId : string)
| SetName (roomId : string) (raw : option string) (rnd : Q)
| SpinRequest (roomId : string) (now seed later : Z) (rndTurns rndDuration : Q)
| Disconnect.

Definition handle (sid : string) (q : request) (rooms : registry)
  : option (registry * list output) :=
  match q with
  | CreateRoom raw now fuel rnd => create_room sid raw now fuel rnd rooms
  | JoinRoom roomId raw now rnd => Some (join_room sid roomId raw now rnd rooms)
  | LeaveRoom roomId => Some (leave_room sid roomId rooms)
  | SetName roomId raw rnd => Some (set_name sid roomId raw rnd rooms)
  | SpinRequest roomId now seed later rt rd =>
      Some (spin_request sid roomId now seed later rt rd rooms)
  | Disconnect => Some (disconnect sid rooms)
  end.

Fixpoint scheduled (out : list output) : list string :=
  match out with
  | [] => []
  | SetTimeout roomId _ :: t => roomId :: scheduled t
  | _ :: t => scheduled t
  end.

Fixpoint remove_one (k : string) (l : list string) : list string :=
  match l with
  | [] => []
  | k' :: t => if String.eqb k' k then t else k' :: remove_one k t
  end.

Inductive step : world -> list output -> world -> Prop :=
| step_request sid q w rooms' out :
    handle sid q (w_rooms w) = Some (rooms', out) ->
    step w out (mkWorld rooms' (w_timers w ++ scheduled out))
| step_timer roomId w rooms' out :
    In roomId (w_timers w) ->
    spin_commit roomId (w_rooms w) = (rooms', out) ->
    step w out (mkWorld rooms' (remove_one roomId (w_timers w))).

Definition initial : world := mkWorld [] [].

Inductive reachable : world -> Prop :=
| reach_initial : reachable initial
| reach_step w out w' : reachable w -> step w out w' -> reachable w'.

(** The host of a room is one of its users. *)
Definition host_is_member (r : room) : Prop := map_has (hostId r) (users r) = true.

Definition hosts_are_members (rooms : registry) : Prop :=
  forall roomId r, In (roomId, r) rooms -> host_is_member r.

(** ** The words of the specification

    Two definitions that follow the specification rather than the code, to
    compare [seededPick] and [sanitizeName] with. *)

(** "XOR with a fixed odd constant, then successive shift-XOR operations at
    widths 13/17/5", on 32-bit signed integers: a shift to the left is a
    product by a power of two reduced to 32 bits, the shift to the right a
    quotient rounded down. *)
Definition mixSpec (seed : Z) : Z :=
  let x0 := Z.lxor (JS.toInt32 seed) (-1640531527) in
  let x1 := Z.lxor x0 (JS.toInt32 (x0 * 2^13)) in
  let x2 := Z.lxor x1 (x1 / 2^17) in
  Z.lxor x2 (JS.toInt32 (x2 * 2^5)).

(** "take its absolute value modulo the order length" *)
Definition targetIndexSpec (seed n : Z) : Z := Z.abs (mixSpec seed) mod n.

(** The words of a string: its maximal runs of code units that are not white
    space. [cur] is the word being read. *)
Fixpoint wordsFrom (cur : string) (s : string) : list string :=
  match s with
  | EmptyString => if String.eqb cur EmptyString then [] else [cur]
  | String c t =>
      if JS.isWhiteSpace c
      then if String.eqb cur EmptyString then wordsFrom EmptyString t
           else cur :: wordsFrom EmptyString t
      else wordsFrom (cur ++ String c EmptyString)%string t
  end.

Definition words (s : string) : list string := wordsFrom EmptyString s.

(** "trims, collapses internal whitespace runs to single spaces": the words,
    one space between two of them. *)
Definition normalizeSpec (s : string) : string := String.concat " " (words s).

(** The range of a 32-bit signed integer. *)
Definition int32 (z : Z) : Prop := -2^31 <= z < 2^31.

(** Join times never decrease along a list of users. *)
Definition byJoinTime : list user -> Prop :=
  Sorted (fun a b => joinedAt a <= joinedAt b).

(** The caller may spin: the host, or the winner of a spin whose lock has
    run out. *)
Definition authorized (r : room) (sid : string) (now : Z) : Prop :=
  hostId r = sid \/ (pendingHostId r = Some sid /\ finished r now = true).

(** The notices of [spin_request]. *)
Definition denied (sid reason : string) : output :=
  Emit (ToSocket sid) (SpinDenied reason).

(** ** A run of the server

    Sockets "A" and "B" in one room: "A" creates it, "B" joins, "A" spins and
    "B" wins, "B" leaves before the host switch. *)

Definition run (sid : string) (q : request) (w : world) : world :=
  match handle sid q (w_rooms w) with
  | Some (rooms', out) => mkWorld rooms' (w_timers w ++ scheduled out)
  | None => w
  end.

Definition demo_tape (k : nat) : Q := inject_Z (Z.of_nat k) / 10.

Definition demo_created : world :=
  run "A" (CreateRoom (Some "Alex"%string) 5 3 demo_tape) initial.

Definition demo_joined : world :=
  run "B" (JoinRoom "ADGKPS" (Some "alex"%string) 6 0) demo_created.

Definition demo_spun : world :=
  run "A" (SpinRequest "ADGKPS" 1000 1000 1000 (1#2) (1#2)) demo_joined.

Definition demo_left : world := run "B" (LeaveRoom "ADGKPS") demo_spun.

(** The room of [demo_left]: "A" alone, the lock and the absent winner
    still in place. *)
Definition demo_left_room : room :=
  mkRoom [("A", mkUser "A" "Alex" 5)]%string "A" 1 (Some 5450) (Some "B"%string).

(** ** Predicates on rooms and names *)

(** Every user of the room sits under its own [id]. *)
Definition keys_match_ids (r : room) : Prop :=
  forall k u, In (k, u) (users r) -> id u = k.

(** A pending winner and a lock come and go together. *)
Definition lock_with_pending (r : room) : Prop :=
  lockUntil r = None <-> pendingHostId r = None.

(** A property of every room of a registry. *)
Definition every_room (P : room -> Prop) (rooms : registry) : Prop :=
  forall roomId r, In (roomId, r) rooms -> P r.

(** Two users that differ at most by their names. *)
Definition same_seat (a b : user) : Prop :=
  id a = id b /\ joinedAt a = joinedAt b.

(** [leave_room] for each code of a list in turn, the registry alone. *)
Definition leave_each (sid : string) (keys : list string) (rooms : registry)
  : registry :=
  fold_left (fun rs roomId => fst (leave_room sid roomId rs)) keys rooms.

(** What goes out is a [room_state] to a room. *)
Definition is_room_state (o : output) : Prop :=
  exists roomId members host spinCount lock,
    o = Emit (ToRoom roomId) (RoomState roomId members host spinCount lock).

(** A string without white space but single spaces between two other code
    units, one of which may end the string. *)
Fixpoint single_spaced_from (afterSpace : bool) (s : string) : bool :=
  match s with
  | EmptyString => true
  | String c t =>
      if JS.isWhiteSpace c
      then negb afterSpace && Ascii.eqb c " " && single_spaced_from true t
      else single_spaced_from false t
  end.

Definition single_spaced (s : string) : bool := single_spaced_from true s.

(** A registry of two rooms, "B" in both and host of the second. *)
Definition demo_two_rooms : registry :=
  [("ADGKPS", mkRoom [("A", mkUser "A" "Alex" 5); ("B", mkUser "B" "alex 2" 6)]
                     "A" 1 (Some 5450) (Some "B"));
   ("MNPQRS", mkRoom [("B", mkUser "B" "Bea" 7)] "B" 0 None None)]%string.

(** Draws of [Math.random()] that alternate between 0 and 1/2. *)
Definition demo_coin (k : nat) : Q := if Nat.even k then 0 else 1#2.

(** "C" creates a third room beside the two of [demo_two_rooms]. *)
Definition demo_third_room : registry * list output :=
  match create_room "C" (Some "Cy"%string) 8 1 demo_coin demo_two_rooms with
  | Some p => p
  | None => ([], [])
  end.

(** Draws of [Math.random()] that go round 0, 0.1, ..., 0.9. *)
Definition demo_wheel (k : nat) : Q := inject_Z (Z.of_nat (k mod 10)) / 10.

(** The six draws of the attempt number [t] of [genCode], [pos] draws having
    been made before the first attempt. *)
Definition attempt (rnd : nat -> Q) (pos t : nat) : string :=
  drawCode (List.map rnd (seq (pos + 6 * t) 6)).

(** [spin_request] goes through: the caller may spin, no spin is in progress
    and two users at least make the turn order. *)
Definition spin_accepted (r : room) (sid : string) (now : Z) : Prop :=
  authorized r sid now /\ locked r now = false /\
  (2 <= List.length (turnOrder r))%nat.

(** A string without any white space. *)
Fixpoint no_white (s : string) : bool :=
  match s with
  | EmptyString => true
  | String c t => negb (JS.isWhiteSpace c) && no_white t
  end.

(** A room of one user, "Alex". *)
Definition demo_solo : room :=
  mkRoom [("A", mkUser "A" "Alex" 5)]%string "A" 0 None None.

(** The callback of a spin fires: one of the callbacks that [setTimeout]
    holds for the room runs and is gone. *)
Definition fire (roomId : string) (w : world) : world :=
  mkWorld (fst (spin_commit roomId (w_rooms w))) (remove_one roomId (w_timers w)).

(** A run in which a member joins again. After [demo_joined], "C" joins at
    time 7 and "A", already in the room, joins again at time 8: "A" stays the
    first key of [users] with the join time 8. "A" spins, "B" wins and
    becomes host when the callback fires. "B" spins, "C" wins and leaves
    before the host switch. *)
Definition rejoin_world : world :=
  run "C" (LeaveRoom "ADGKPS")
    (run "B" (SpinRequest "ADGKPS" 10000 1006 10000 (1#2) (1#2))
       (fire "ADGKPS"
          (run "A" (SpinRequest "ADGKPS" 1000 1000 1000 (1#2) (1#2))
             (run "A" (JoinRoom "ADGKPS" (Some "Al"%string) 8 0)
                (run "C" (JoinRoom "ADGKPS" (Some "Cy"%string) 7 0) demo_joined))))).

(** The room of [rejoin_world]: "B" is host, the winner "C" is gone, and
    "A", first key of [users], joined (again) after "B". *)
Definition rejoin_room : room :=
  mkRoom [("A", mkUser "A" "Al" 8); ("B", mkUser "B" "alex 2" 6)]%string
         "B" 2 (Some 14450) (Some "C"%string).

(** * Properties *)

(** ** Maps *)

Section MapFacts.
Context {V : Type}.
Implicit Types (m : jsmap V) (k : string) (v : V).

Lemma map_get_In k m v : map_get k m = Some v -> In (k, v) m.
Proof.
  induction m as [|[k' v'] t IH]; simpl; [discriminate|].
  destruct (String.eqb_spec k' k) as [->|_].
  - intros [= ->]. now left.
  - intros H. right. auto.
Qed.

Lemma map_set_In k v m k0 v0 :
  In (k0, v0) (map_set k v m) -> (k0 = k /\ v0 = v) \/ In (k0, v0) m.
Proof.
  induction m as [|[k' v'] t IH]; simpl.
  - intros [[= <- <-]|[]]. now left.
  - destruct (String.eqb_spec k' k) as [->|_]; simpl.
    + intros [[= <- <-]|H]; [now left | right; now right].
    + intros [H|H]; [right; now left|].
      destruct (IH H) as [?|?]; [now left | right; now right].
Qed.

Lemma map_delete_In k m k0 v0 : In (k0, v0) (map_delete k m) -> In (k0, v0) m.
Proof. unfold map_delete. intros H. now apply filter_In in H. Qed.

Lemma map_get_set_same k v m : map_get k (map_set k v m) = Some v.
Proof.
  induction m as [|[k' v'] t IH]; simpl.
  - now rewrite String.eqb_refl.
  - destruct (String.eqb_spec k' k) as [->|Hne]; simpl.
    + now rewrite String.eqb_refl.
    + destruct (String.eqb_spec k' k); [contradiction | exact IH].
Qed.

Lemma map_get_set_other k k0 v m :
  k0 <> k -> map_get k0 (map_set k v m) = map_get k0 m.
Proof.
  intros Hne. induction m as [|[k' v'] t IH]; simpl.
  - destruct (String.eqb_spec k k0); [congruence | reflexivity].
  - destruct (String.eqb_spec k' k) as [->|Hk]; simpl.
    + destruct (String.eqb_spec k k0); [congruence | reflexivity].
    + now rewrite IH.
Qed.

Lemma map_has_set k k0 v m :
  map_has k0 m = true -> map_has k0 (map_set k v m) = true.
Proof.
  unfold map_has. destruct (String.eqb_spec k0 k) as [->|Hne].
  - now rewrite map_get_set_same.
  - now rewrite map_get_set_other.
Qed.

Lemma map_get_delete_other k k0 m :
  k0 <> k -> map_get k0 (map_delete k m) = map_get k0 m.
Proof.
  intros Hne. induction m as [|[k' v'] t IH]; simpl; [reflexivity|].
  destruct (String.eqb_spec k' k) as [->|Hk]; simpl.
  - destruct (String.eqb_spec k k0); [congruence | exact IH].
  - now rewrite IH.
Qed.

Lemma map_get_delete_same k m : map_get k (map_delete k m) = None.
Proof.
  induction m as [|[k' v'] t IH]; simpl; [reflexivity|].
  destruct (String.eqb_spec k' k) as [->|Hk]; simpl; [exact IH|].
  destruct (String.eqb_spec k' k); [contradiction | exact IH].
Qed.

Lemma map_has_head k m : hd_error (map_keys m) = Some k -> map_has k m = true.
Proof.
  destruct m as [|[k' v'] t]; simpl; [discriminate|].
  intros [= ->]. unfold map_has. simpl. now rewrite String.eqb_refl.
Qed.
End MapFacts.

Lemma truthyStr_Some o s : JS.truthyStr o = Some s -> o = Some s /\ s <> EmptyString.
Proof.
  destruct o as [t|]; simpl; [|discriminate].
  destruct (String.eqb_spec t EmptyString); [discriminate|].
  intros [= ->]. now split.
Qed.

Lemma firstKey_member r k : firstKey r = Some k -> map_has k (users r) = true.
Proof.
  unfold firstKey. intros H. apply truthyStr_Some in H as [H _].
  now apply map_has_head.
Qed.

(** ** The host is a member (C1) *)

Lemma hosts_set roomId r rooms :
  hosts_are_members rooms -> host_is_member r ->
  hosts_are_members (map_set roomId r rooms).
Proof.
  intros Hinv Hr k r0 Hin.
  apply map_set_In in Hin as [[_ ->]|Hin]; [exact Hr | eauto].
Qed.

Lemma hosts_delete roomId rooms :
  hosts_are_members rooms -> hosts_are_members (map_delete roomId rooms).
Proof. intros Hinv k r0 Hin. apply map_delete_In in Hin. eauto. Qed.

Lemma hosts_get roomId r rooms :
  hosts_are_members rooms -> map_get roomId rooms = Some r -> host_is_member r.
Proof. intros Hinv Hget. apply map_get_In in Hget. eauto. Qed.

Lemma host_after_new_user r sid u :
  host_is_member r -> host_is_member (set_users r (map_set sid u (users r))).
Proof. unfold host_is_member. simpl. apply map_has_set. Qed.

(** A member other than the host leaves. *)
Lemma host_after_delete r sid :
  host_is_member r -> hostId r <> sid ->
  host_is_member (set_users r (map_delete sid (users r))).
Proof.
  unfold host_is_member, map_has. simpl. intros H Hne.
  now rewrite map_get_delete_other.
Qed.

Lemma host_after_promotion r next :
  firstKey r = Some next -> host_is_member (set_hostId r next).
Proof. intros H. unfold host_is_member. simpl. now apply firstKey_member. Qed.

Lemma create_room_hosts sid raw now fuel rnd rooms rooms' out :
  hosts_are_members rooms ->
  create_room sid raw now fuel rnd rooms = Some (rooms', out) ->
  hosts_are_members rooms'.
Proof.
  unfold create_room. intros Hinv.
  destruct (genCode fuel rnd 0 rooms) as [[roomId pos]|]; [|discriminate].
  intros [= <- _]. apply hosts_set; [exact Hinv|].
  unfold host_is_member, map_has. simpl. now rewrite String.eqb_refl.
Qed.

Lemma join_room_hosts sid roomId raw now rnd rooms :
  hosts_are_members rooms ->
  hosts_are_members (fst (join_room sid roomId raw now rnd rooms)).
Proof.
  unfold join_room. intros Hinv.
  destruct (map_get roomId rooms) as [r|] eqn:Hget; simpl; [|exact Hinv].
  apply hosts_set; [exact Hinv|].
  apply host_after_new_user. eapply hosts_get; eauto.
Qed.

Lemma leave_room_hosts sid roomId rooms :
  hosts_are_members rooms ->
  hosts_are_members (fst (leave_room sid roomId rooms)).
Proof.
  unfold leave_room. intros Hinv.
  destruct (map_get roomId rooms) as [r|] eqn:Hget; simpl; [|exact Hinv].
  destruct (String.eqb_spec (hostId r) sid) as [Heq|Hne].
  - destruct (firstKey _) as [next|] eqn:Hk; simpl.
    + apply hosts_set; [exact Hinv|]. now apply host_after_promotion.
    + now apply hosts_delete.
  - simpl. apply hosts_set; [exact Hinv|].
    apply host_after_delete; [eapply hosts_get; eauto | exact Hne].
Qed.

Lemma set_name_hosts sid roomId raw rnd rooms :
  hosts_are_members rooms ->
  hosts_are_members (fst (set_name sid roomId raw rnd rooms)).
Proof.
  unfold set_name. intros Hinv.
  destruct (map_get roomId rooms) as [r|] eqn:Hget; simpl; [|exact Hinv].
  destruct (map_get sid (users r)) as [u|]; simpl; [|exact Hinv].
  apply hosts_set; [exact Hinv|].
  apply host_after_new_user. eapply hosts_get; eauto.
Qed.

Lemma spin_request_hosts sid roomId now seed later rt rd rooms :
  hosts_are_members rooms ->
  hosts_are_members (fst (spin_request sid roomId now seed later rt rd rooms)).
Proof.
  unfold spin_request. intros Hinv.
  destruct (map_get roomId rooms) as [r|] eqn:Hget; simpl; [|exact Hinv].
  pose proof (hosts_get _ _ _ Hinv Hget) as Hr.
  destruct (negb _ && negb _); [exact Hinv|].
  destruct (locked r now); [exact Hinv|].
  destruct (_ <? 2); [exact Hinv|].
  destruct (nth_error _ _); simpl; apply hosts_set; auto.
Qed.

Lemma spin_commit_hosts roomId rooms :
  hosts_are_members rooms ->
  hosts_are_members (fst (spin_commit roomId rooms)).
Proof.
  unfold spin_commit. intros Hinv.
  destruct (map_get roomId rooms) as [r|] eqn:Hget; simpl; [|exact Hinv].
  pose proof (hosts_get _ _ _ Hinv Hget) as Hr.
  apply hosts_set; [exact Hinv|]. unfold host_is_member. simpl.
  destruct (pendingHostId r) as [p|].
  - destruct (map_has p (users r)) eqn:Hp; [exact Hp|].
    destruct (firstKey r) eqn:Hk; [now apply firstKey_member | exact Hr].
  - destruct (firstKey r) eqn:Hk; [now apply firstKey_member | exact Hr].
Qed.

Lemma disconnect_loop_hosts sid keys : forall rooms,
  hosts_are_members rooms ->
  hosts_are_members (fst (disconnect_loop sid keys rooms)).
Proof.
  induction keys as [|roomId keys IH]; intros rooms Hinv; simpl; [exact Hinv|].
  destruct (map_get roomId rooms) as [r|] eqn:Hget; [|now apply IH].
  destruct (map_has sid (users r)); simpl; [|now apply IH].
  destruct (String.eqb_spec (hostId r) sid) as [Heq|Hne].
  - destruct (firstKey _) as [next|] eqn:Hk.
    + match goal with |- context [disconnect_loop sid keys ?rs] =>
        specialize (IH rs); destruct (disconnect_loop sid keys rs) end.
      apply IH. apply hosts_set; [exact Hinv|]. now apply host_after_promotion.
    + apply IH. now apply hosts_delete.
  - match goal with |- context [disconnect_loop sid keys ?rs] =>
      specialize (IH rs); destruct (disconnect_loop sid keys rs) end.
    apply IH. apply hosts_set; [exact Hinv|].
    apply host_after_delete; [eapply hosts_get; eauto | exact Hne].
Qed.

Lemma handle_hosts sid q rooms rooms' out :
  hosts_are_members rooms ->
  handle sid q rooms = Some (rooms', out) ->
  hosts_are_members rooms'.
Proof.
  intros Hinv. destruct q; simpl.
  - now apply create_room_hosts.
  - intros [= H]. apply (f_equal fst) in H. simpl in H. subst rooms'.
    now apply join_room_hosts.
  - intros [= H]. apply (f_equal fst) in H. simpl in H. subst rooms'.
    now apply leave_room_hosts.
  - intros [= H]. apply (f_equal fst) in H. simpl in H. subst rooms'.
    now apply set_name_hosts.
  - intros [= H]. apply (f_equal fst) in H. simpl in H. subst rooms'.
    now apply spin_request_hosts.
  - intros [= H]. apply (f_equal fst) in H. simpl in H. subst rooms'.
    now apply disconnect_loop_hosts.
Qed.

Lemma step_hosts w out w' :
  hosts_are_members (w_rooms w) -> step w out w' -> hosts_are_members (w_rooms w').
Proof.
  intros Hinv Hstep. destruct Hstep as [sid q w rooms' out H | roomId w rooms' out _ H];
    simpl.
  - eapply handle_hosts; eauto.
  - apply (f_equal fst) in H. simpl in H. subst rooms'.
    now apply spin_commit_hosts.
Qed.

(** C1. In every state that the server reaches by [create_room],
    [join_room], [leave_room], [set_name], [spin_request], [disconnect] and
    the firing of the callbacks that spins leave behind, the [hostId] of
    every room of the registry is a key of the [users] map of that room. *)
Theorem host_always_member (w : world) :
  reachable w ->
  forall roomId r, map_get roomId (w_rooms w) = Some r ->
                   map_has (hostId r) (users r) = true.
Proof.
  intros Hreach. assert (Hinv : hosts_are_members (w_rooms w)).
  { induction Hreach as [|w out w' _ IH Hstep].
    - intros k r [].
    - eapply step_hosts; eauto. }
  intros roomId r Hget. eapply hosts_get; eauto.
Qed.

Lemma reachable_run sid q w :
  reachable w -> handle sid q (w_rooms w) <> None -> reachable (run sid q w).
Proof.
  intros Hw Hsome. unfold run.
  destruct (handle sid q (w_rooms w)) as [[rooms' out]|] eqn:H; [|contradiction].
  eapply reach_step; [exact Hw|]. now apply step_request with (sid := sid) (q := q).
Qed.

(** The run of the four worlds is a run of the server. *)
Lemma demo_reachable :
  reachable demo_created /\ reachable demo_joined /\
  reachable demo_spun /\ reachable demo_left.
Proof.
  assert (H1 : reachable demo_created).
  { apply reachable_run; [apply reach_initial | vm_compute; discriminate]. }
  assert (H2 : reachable demo_joined).
  { apply reachable_run; [exact H1 | vm_compute; discriminate]. }
  assert (H3 : reachable demo_spun).
  { apply reachable_run; [exact H2 | vm_compute; discriminate]. }
  repeat split; try assumption.
  apply reachable_run; [exact H3 | vm_compute; discriminate].
Qed.

Lemma host_always_member_witness :
  reachable demo_left /\
  map_get "ADGKPS" (w_rooms demo_left) = Some demo_left_room /\
  map_has (hostId demo_left_room) (users demo_left_room) = true.
Proof.
  assert (H : reachable demo_left).
  { repeat (apply reachable_run; [|vm_compute; discriminate]).
    apply reach_initial. }
  split; [exact H|]. split; [vm_compute; reflexivity|].
  apply (host_always_member demo_left H "ADGKPS" demo_left_room).
  vm_compute. reflexivity.
Defined.

(** ** 32-bit integers and [seededPick] (C10, C7) *)

Lemma toInt32_range z : int32 (JS.toInt32 z).
Proof.
  unfold int32, JS.toInt32.
  pose proof (Z.mod_pos_bound (z + 2^31) (2^32)). lia.
Qed.

Lemma toInt32_small z : int32 z -> JS.toInt32 z = z.
Proof. unfold int32, JS.toInt32. intros H. rewrite Z.mod_small; lia. Qed.

Lemma int32_sign z : int32 z <-> Z.shiftr z 31 = 0 \/ Z.shiftr z 31 = -1.
Proof.
  unfold int32. rewrite Z.shiftr_div_pow2 by lia.
  split; intros H; Z.div_mod_to_equations; lia.
Qed.

Lemma lxor_int32 a b : int32 a -> int32 b -> int32 (Z.lxor a b).
Proof.
  rewrite !int32_sign, Z.shiftr_lxor.
  intros [-> | ->] [-> | ->]; simpl; auto.
Qed.

Lemma sar_int32 a k : int32 a -> 0 <= k -> int32 (a / 2^k).
Proof.
  unfold int32. intros H Hk.
  assert (0 < 2^k) by (apply Z.pow_pos_nonneg; lia).
  assert (1 <= 2^k) by lia.
  split.
  - apply Z.div_le_lower_bound; nia.
  - apply Z.div_lt_upper_bound; nia.
Qed.

Lemma xor_int32 a b : int32 a -> int32 b -> JS.xor a b = Z.lxor a b.
Proof. intros Ha Hb. unfold JS.xor. now rewrite !toInt32_small. Qed.

Lemma shl_int32 a k : int32 a -> 0 <= k < 32 -> JS.shl a k = JS.toInt32 (a * 2^k).
Proof.
  intros Ha Hk. unfold JS.shl.
  rewrite (toInt32_small a Ha), Z.mod_small, Z.shiftl_mul_pow2 by lia.
  reflexivity.
Qed.

Lemma sar_div a k : int32 a -> 0 <= k < 32 -> JS.sar a k = a / 2^k.
Proof.
  intros Ha Hk. unfold JS.sar.
  rewrite (toInt32_small a Ha), Z.mod_small, Z.shiftr_div_pow2 by lia.
  reflexivity.
Qed.

Lemma golden_constant : JS.toInt32 0x9e3779b9 = -1640531527 /\ Z.odd 0x9e3779b9 = true.
Proof. split; reflexivity. Qed.

(** The mix of [seededPick] is the mix that the specification describes. *)
Lemma seededPick_mix seed n :
  seededPick seed n = JS.rem (Z.abs (mixSpec seed)) n.
Proof.
  unfold seededPick, mixSpec.
  assert (H0 : JS.xor seed 0x9e3779b9 = Z.lxor (JS.toInt32 seed) (-1640531527)).
  { unfold JS.xor. now rewrite (proj1 golden_constant). }
  rewrite H0. clear H0.
  set (x0 := Z.lxor (JS.toInt32 seed) (-1640531527)).
  assert (I0 : int32 x0).
  { apply lxor_int32; [apply toInt32_range | unfold int32; lia]. }
  rewrite (shl_int32 x0 13 I0), (xor_int32 _ _ I0 (toInt32_range _)) by lia.
  set (x1 := Z.lxor x0 (JS.toInt32 (x0 * 2^13))).
  assert (I1 : int32 x1) by (apply lxor_int32; [exact I0 | apply toInt32_range]).
  assert (I1' : int32 (x1 / 2^17)) by (apply sar_int32; [exact I1 | lia]).
  rewrite (sar_div x1 17 I1), (xor_int32 _ _ I1 I1') by lia.
  set (x2 := Z.lxor x1 (x1 / 2^17)).
  assert (I2 : int32 x2) by (apply lxor_int32; assumption).
  rewrite (shl_int32 x2 5 I2), (xor_int32 _ _ I2 (toInt32_range _)) by lia.
  reflexivity.
Qed.

Lemma seededPick_spec seed n : 0 < n -> seededPick seed n = targetIndexSpec seed n.
Proof.
  intros Hn. rewrite seededPick_mix. unfold JS.rem, targetIndexSpec.
  apply Z.rem_mod_nonneg; [apply Z.abs_nonneg | exact Hn].
Qed.

Lemma seededPick_range seed n : 1 <= n -> 0 <= seededPick seed n < n.
Proof.
  intros Hn. rewrite seededPick_spec by lia. unfold targetIndexSpec.
  apply Z.mod_pos_bound. lia.
Qed.

Lemma seededPick_lookup seed (order : list user) :
  order <> [] ->
  exists winner,
    nth_error order (Z.to_nat (seededPick seed (Z.of_nat (List.length order))))
    = Some winner.
Proof.
  intros Hne.
  assert (Hn : 1 <= Z.of_nat (List.length order)) by (destruct order; simpl; [contradiction | lia]).
  pose proof (seededPick_range seed _ Hn) as Hb.
  destruct (nth_error order _) as [w|] eqn:Hnth; [now exists w|].
  apply nth_error_None in Hnth. lia.
Qed.

(** C10. For every seed and every [n >= 1], [seededPick seed n] is an index
    in [[0, n)]: on a turn order of [n] users the lookup
    [order[targetIndex]] of [spin_request] finds a user. *)
Theorem seededPick_in_bounds (seed n : Z) :
  1 <= n ->
  0 <= seededPick seed n < n /\
  forall order : list user, Z.of_nat (List.length order) = n ->
    exists winner, nth_error order (Z.to_nat (seededPick seed n)) = Some winner.
Proof.
  intros Hn. split; [now apply seededPick_range|].
  intros order <-. apply seededPick_lookup. intros ->. simpl in Hn. lia.
Qed.

Lemma seededPick_in_bounds_witness :
  1 <= 3 /\ 0 <= seededPick 1700000000000 3 < 3 /\
  exists winner,
    nth_error [mkUser "A" "Ada" 1; mkUser "B" "Bob" 2; mkUser "C" "Cy" 3]
              (Z.to_nat (seededPick 1700000000000 3)) = Some winner.
Proof.
  assert (H : 1 <= 3) by lia.
  split; [exact H|]. split.
  - apply (seededPick_in_bounds 1700000000000 3 H).
  - apply (proj2 (seededPick_in_bounds 1700000000000 3 H)). reflexivity.
Defined.

(** ** The turn order *)

Lemma insertByJoin_perm u l : Permutation (insertByJoin u l) (u :: l).
Proof.
  induction l as [|v t IH]; simpl; [reflexivity|].
  destruct (joinedAt u <=? joinedAt v); [reflexivity|].
  rewrite IH. apply perm_swap.
Qed.

Lemma sortByJoin_perm l : Permutation (sortByJoin l) l.
Proof.
  induction l as [|u t IH]; simpl; [reflexivity|].
  rewrite insertByJoin_perm. now constructor.
Qed.

Lemma insertByJoin_sorted u l : byJoinTime l -> byJoinTime (insertByJoin u l).
Proof.
  unfold byJoinTime. induction l as [|v t IH]; simpl; intros Hs.
  - repeat constructor.
  - destruct (Z.leb_spec (joinedAt u) (joinedAt v)) as [Hle|Hgt].
    + constructor; [exact Hs | now constructor].
    + apply Sorted_inv in Hs as [Hs Hhd]. constructor; [now apply IH|].
      destruct t as [|w t']; simpl.
      * constructor. lia.
      * destruct (joinedAt u <=? joinedAt w); constructor; [lia|].
        now apply HdRel_inv in Hhd.
Qed.

Lemma sortByJoin_sorted l : byJoinTime (sortByJoin l).
Proof.
  induction l as [|u t IH]; simpl; [constructor | now apply insertByJoin_sorted].
Qed.

(** A list already in the order of the join times is left as it is. *)
Lemma sortByJoin_id l : byJoinTime l -> sortByJoin l = l.
Proof.
  unfold byJoinTime. induction l as [|u t IH]; simpl; intros Hs; [reflexivity|].
  apply Sorted_inv in Hs as [Hs Hhd]. rewrite (IH Hs).
  destruct t as [|v t']; simpl; [reflexivity|].
  apply HdRel_inv in Hhd. destruct (Z.leb_spec (joinedAt u) (joinedAt v)); [reflexivity | lia].
Qed.

Lemma sortByJoin_length l : List.length (sortByJoin l) = List.length l.
Proof. apply Permutation_length, sortByJoin_perm. Qed.

(** ** [spin_request]: the three refusals (C3, C4, C5) *)

Lemma authorized_dec r sid now :
  authorized r sid now ->
  negb (isCurrentHost r sid) && negb (isPendingWinnerNowHost r sid now) = false.
Proof.
  unfold authorized, isCurrentHost, isPendingWinnerNowHost.
  intros [<- | [-> Hfin]].
  - now rewrite String.eqb_refl.
  - rewrite String.eqb_refl, Hfin. simpl. apply andb_false_r.
Qed.

Lemma unauthorized_dec r sid now :
  ~ authorized r sid now ->
  negb (isCurrentHost r sid) && negb (isPendingWinnerNowHost r sid now) = true.
Proof.
  unfold authorized, isCurrentHost, isPendingWinnerNowHost. intros H.
  destruct (String.eqb_spec (hostId r) sid) as [Heq|_]; [tauto|]. simpl.
  destruct (pendingHostId r) as [p|]; [|reflexivity].
  destruct (String.eqb_spec p sid) as [->|_]; [|reflexivity].
  destruct (finished r now); [|reflexivity]. exfalso. apply H. right. now split.
Qed.

(** While a pending winner comes with a lock, "the pending winner of a lock
    that has run out" is the winner of a lock whose time [now] has reached. *)
Lemma authorized_elapsed_lock r sid now :
  (pendingHostId r = Some sid -> JS.truthyNum (lockUntil r) = true) ->
  authorized r sid now <->
  hostId r = sid \/
  (pendingHostId r = Some sid /\ exists t, lockUntil r = Some t /\ t <= now).
Proof.
  intros Hinv. unfold authorized, finished. split.
  - intros [H | [Hp Hfin]]; [now left | right]. split; [exact Hp|].
    rewrite (Hinv Hp) in Hfin. simpl in Hfin.
    destruct (lockUntil r) as [t|]; [|discriminate].
    exists t. split; [reflexivity | now apply Z.leb_le].
  - intros [H | (Hp & t & Ht & Hle)]; [now left | right]. split; [exact Hp|].
    rewrite Ht. apply orb_true_iff. right. now apply Z.leb_le.
Qed.

(** C3. In a room whose [lockUntil] holds a time that [now] has not reached,
    a [spin_request] of the host is answered by the notice "A spin is already
    in progress." to the caller alone: the registry is left as it was, no
    [spin_start] goes out and no callback is scheduled. The clock counts from
    the epoch, so [now] is not negative. *)
Theorem spin_refused_while_locked
    (sid roomId : string) (now seed later : Z) (rt rd : Q)
    (rooms : registry) (r : room) (t : Z) :
  map_get roomId rooms = Some r ->
  hostId r = sid ->
  lockUntil r = Some t ->
  0 <= now < t ->
  spin_request sid roomId now seed later rt rd rooms
  = (rooms, [denied sid "A spin is already in progress."]).
Proof.
  intros Hget Hhost Hlock Hnow. unfold spin_request. rewrite Hget.
  rewrite authorized_dec by now left.
  unfold locked, JS.truthyNum. rewrite Hlock.
  destruct (Z.eqb_spec t 0) as [->|_]; [lia|].
  destruct (Z.ltb_spec now t); [reflexivity | lia].
Qed.

Lemma spin_refused_while_locked_witness :
  spin_request "A" "ADGKPS" 2000 2000 2000 0 0 (w_rooms demo_spun)
  = (w_rooms demo_spun, [denied "A" "A spin is already in progress."]).
Proof.
  apply (spin_refused_while_locked "A" "ADGKPS" 2000 2000 2000 0 0
           (w_rooms demo_spun)
           (mkRoom [("A", mkUser "A" "Alex" 5); ("B", mkUser "B" "alex 2" 6)]%string
                   "A" 1 (Some 5450) (Some "B"%string)) 5450);
    [vm_compute; reflexivity | reflexivity | reflexivity | lia].
Defined.

(** C4, as the code has it. In a room where no spin is in progress
    ([lockUntil] absent or reached) and fewer than two users make the turn
    order, a [spin_request] of an authorized caller is answered by the notice
    "Need at least 2 players." to the caller alone, and the registry, the
    counter [spins] with it, is left as it was. *)
Theorem spin_refused_below_two_players
    (sid roomId : string) (now seed later : Z) (rt rd : Q)
    (rooms : registry) (r : room) :
  map_get roomId rooms = Some r ->
  authorized r sid now ->
  locked r now = false ->
  (List.length (turnOrder r) < 2)%nat ->
  spin_request sid roomId now seed later rt rd rooms
  = (rooms, [denied sid "Need at least 2 players."]).
Proof.
  intros Hget Hauth Hfree Hfew. unfold spin_request. rewrite Hget.
  rewrite (authorized_dec _ _ _ Hauth), Hfree.
  destruct (Z.ltb_spec (Z.of_nat (List.length (turnOrder r))) 2); [reflexivity | lia].
Qed.

Lemma spin_refused_below_two_players_witness :
  spin_request "A" "ADGKPS" 6000 6000 6000 0 0 (w_rooms demo_left)
  = (w_rooms demo_left, [denied "A" "Need at least 2 players."]).
Proof.
  apply (spin_refused_below_two_players "A" "ADGKPS" 6000 6000 6000 0 0
           (w_rooms demo_left) demo_left_room);
    [vm_compute; reflexivity | left; reflexivity | reflexivity | simpl; lia].
Defined.

(** C4 as stated fails while a spin is in progress: in [demo_left] the host
    "A" is alone, so the turn order has one user, and asks at time 2000, before
    the lock 5450 runs out. The answer is the notice of the lock, not
    "Need at least 2 players." *)
Lemma spin_below_two_players_locked :
  map_get "ADGKPS" (w_rooms demo_left) = Some demo_left_room /\
  authorized demo_left_room "A" 2000 /\
  (List.length (turnOrder demo_left_room) < 2)%nat /\
  spin_request "A" "ADGKPS" 2000 2000 2000 0 0 (w_rooms demo_left)
  = (w_rooms demo_left, [denied "A" "A spin is already in progress."]) /\
  ~ In (denied "A" "Need at least 2 players.")
       (snd (spin_request "A" "ADGKPS" 2000 2000 2000 0 0 (w_rooms demo_left))).
Proof.
  split; [vm_compute; reflexivity|].
  split; [left; reflexivity|].
  split; [simpl; lia|].
  split; [vm_compute; reflexivity|].
  vm_compute. intros [H|[]]. discriminate H.
Qed.

(** C5, as the code has it. On a room that exists, a [spin_request] of a
    caller who is neither the host nor the pending winner of a lock that has
    run out is dropped without a word: nothing is sent, to the caller or to
    the room, nothing is scheduled, and the registry is left as it was. *)
Theorem spin_unauthorized_dropped
    (sid roomId : string) (now seed later : Z) (rt rd : Q)
    (rooms : registry) (r : room) :
  map_get roomId rooms = Some r ->
  ~ authorized r sid now ->
  spin_request sid roomId now seed later rt rd rooms = (rooms, []).
Proof.
  intros Hget Hno. unfold spin_request.
  now rewrite Hget, (unauthorized_dec _ _ _ Hno).
Qed.

Lemma spin_unauthorized_dropped_witness :
  spin_request "B" "ADGKPS" 2000 2000 2000 0 0 (w_rooms demo_spun)
  = (w_rooms demo_spun, []).
Proof.
  apply (spin_unauthorized_dropped "B" "ADGKPS" 2000 2000 2000 0 0
           (w_rooms demo_spun)
           (mkRoom [("A", mkUser "A" "Alex" 5); ("B", mkUser "B" "alex 2" 6)]%string
                   "A" 1 (Some 5450) (Some "B"%string)));
    [vm_compute; reflexivity|].
  intros [H | [_ H]]; [discriminate H | vm_compute in H; discriminate H].
Defined.

(** C5 as stated fails on the notice: "B" is not the host of the room of
    [demo_spun], and the lock of which "B" is the pending winner has not run
    out at time 2000; the request of "B" sends nothing to "B". *)
Lemma spin_unauthorized_no_notice :
  exists r, map_get "ADGKPS" (w_rooms demo_spun) = Some r /\
    hostId r <> "B"%string /\
    finished r 2000 = false /\
    forall p, ~ In (Emit (ToSocket "B") p)
                   (snd (spin_request "B" "ADGKPS" 2000 2000 2000 0 0 (w_rooms demo_spun))).
Proof.
  eexists. split; [vm_compute; reflexivity|].
  split; [discriminate|]. split; [reflexivity|].
  intros p. vm_compute. intros [].
Qed.

(** ** An accepted spin (C7) *)

(** C7. When [spin_request] accepts (the caller is authorized, no spin is in
    progress, at least two users make the turn order), the winner is the
    user at index [targetIndex] of the turn order. The turn order is the
    first ten of the users sorted by join time; [targetIndex] is the
    absolute value, modulo the length of the order, of the seed XORed with
    the odd constant 0x9e3779b9 and mixed by the shift-XORs of widths 13, 17
    and 5. The winner becomes [pendingHostId] and goes out as [nextHostId]
    in the [spin_start] of the room. *)
Theorem spin_winner_by_seed
    (sid roomId : string) (now seed later : Z) (rt rd : Q)
    (rooms : registry) (r : room) :
  map_get roomId rooms = Some r ->
  authorized r sid now ->
  locked r now = false ->
  (2 <= List.length (turnOrder r))%nat ->
  let everyone := sortByJoin (map_values (users r)) in
  let order := turnOrder r in
  let targetIndex := targetIndexSpec seed (Z.of_nat (List.length order)) in
  byJoinTime everyone /\ Permutation everyone (map_values (users r)) /\
  order = firstn 10 everyone /\
  JS.toInt32 0x9e3779b9 = -1640531527 /\ Z.odd 0x9e3779b9 = true /\
  exists winner durationMs turns hostSwitchAt,
    nth_error order (Z.to_nat targetIndex) = Some winner /\
    spin_request sid roomId now seed later rt rd rooms
    = (map_set roomId
         (mkRoom (users r) (hostId r) (spins r + 1)
                 (Some hostSwitchAt) (Some (id winner))) rooms,
       [Emit (ToRoom roomId)
             (SpinStart (List.map id order) targetIndex durationMs turns
                        (now + 600) (id winner) hostSwitchAt (spins r + 1));
        SetTimeout roomId (Z.max 0 (hostSwitchAt - later))]).
Proof.
  intros Hget Hauth Hfree Hmany everyone order targetIndex.
  split; [apply sortByJoin_sorted|].
  split; [apply sortByJoin_perm|].
  split; [reflexivity|].
  split; [apply golden_constant|]. split; [apply golden_constant|].
  assert (Hne : order <> []).
  { intros Heq. subst order. rewrite Heq in Hmany. simpl in Hmany. lia. }
  destruct (seededPick_lookup seed order Hne) as [winner Hw].
  exists winner, (3400 + JS.floor (rd * 400)), (4 + JS.floor (rt * 2)),
         (now + 600 + (3400 + JS.floor (rd * 400)) + 250).
  assert (Hpick : seededPick seed (Z.of_nat (List.length order)) = targetIndex).
  { apply seededPick_spec. subst order. lia. }
  split; [now rewrite <- Hpick|].
  unfold spin_request. rewrite Hget, (authorized_dec _ _ _ Hauth), Hfree.
  fold order.
  destruct (Z.ltb_spec (Z.of_nat (List.length order)) 2); [subst order; lia|].
  rewrite Hpick in Hw |- *. rewrite Hw. reflexivity.
Qed.

Lemma spin_winner_by_seed_witness :
  exists durationMs turns hostSwitchAt,
    spin_request "A" "ADGKPS" 1000 1000 1000 (1#2) (1#2) (w_rooms demo_joined)
    = (map_set "ADGKPS"
         (mkRoom [("A", mkUser "A" "Alex" 5); ("B", mkUser "B" "alex 2" 6)]%string
                 "A" 1 (Some hostSwitchAt) (Some "B"%string))
         (w_rooms demo_joined),
       [Emit (ToRoom "ADGKPS")
             (SpinStart ["A"; "B"]%string 1 durationMs turns 1600 "B"
                        hostSwitchAt 1);
        SetTimeout "ADGKPS" (Z.max 0 (hostSwitchAt - 1000))]).
Proof.
  destruct (spin_winner_by_seed "A" "ADGKPS" 1000 1000 1000 (1#2) (1#2)
              (w_rooms demo_joined)
              (mkRoom [("A", mkUser "A" "Alex" 5); ("B", mkUser "B" "alex 2" 6)]%string
                      "A" 0 None None))
    as (_ & _ & _ & _ & _ & winner & d & t & h & Hw & Hrun);
    [vm_compute; reflexivity | left; reflexivity | reflexivity | simpl; lia |].
  vm_compute in Hw. injection Hw as <-.
  exists d, t, h. exact Hrun.
Defined.

(** ** The deferred commit (C2) *)

Lemma emitState_set roomId r rooms :
  emitState roomId (map_set roomId r rooms) = [Emit (ToRoom roomId) (roomState roomId r)].
Proof. unfold emitState. now rewrite map_get_set_same. Qed.

(** C2, as the code has it. When the callback of a spin fires: if the room
    is gone, nothing changes and nothing is sent. Otherwise the room keeps
    its users and its counter, [pendingHostId] and [lockUntil] are cleared,
    the state is broadcast, and [hostId] is
    - the pending winner, if still a key of [users];
    - else the first key of [users], the first remaining member in the order
      of insertion (a socket id is never the empty string); that member is
      the one with the earliest join time when the join times follow the
      order of insertion, which a [join_room] of a member undoes;
    - else, [users] being empty, what it was. *)
Theorem spin_commit_resolves (roomId : string) (rooms : registry) :
  (map_get roomId rooms = None -> spin_commit roomId rooms = (rooms, [])) /\
  (forall r, map_get roomId rooms = Some r ->
     exists host,
       let r' := mkRoom (users r) host (spins r) None None in
       spin_commit roomId rooms
       = (map_set roomId r' rooms, [Emit (ToRoom roomId) (roomState roomId r')]) /\
       map_get roomId (fst (spin_commit roomId rooms)) = Some r' /\
       (forall p, pendingHostId r = Some p -> map_has p (users r) = true ->
                  host = p) /\
       ((forall p, pendingHostId r = Some p -> map_has p (users r) = false) ->
        (forall first rest, users r = first :: rest -> fst first <> EmptyString ->
           host = fst first /\
           (byJoinTime (map_values (users r)) ->
            hd_error (sortByJoin (map_values (users r))) = Some (snd first))) /\
        (users r = [] -> host = hostId r))).
Proof.
  split.
  - intros Hget. unfold spin_commit. now rewrite Hget.
  - intros r Hget. unfold spin_commit. rewrite Hget.
    match goal with |- context [mkRoom (users r) ?h (spins r) None None] =>
      exists h end.
    cbv zeta. rewrite emitState_set. split; [reflexivity|].
    split; [apply map_get_set_same|]. split.
    + intros p Hp Hin. now rewrite Hp, Hin.
    + intros Hgone.
      assert (Hfall : match pendingHostId r with
                      | Some p => if map_has p (users r) then p
                                  else match firstKey r with Some k => k | None => hostId r end
                      | None => match firstKey r with Some k => k | None => hostId r end
                      end
                      = match firstKey r with Some k => k | None => hostId r end).
      { destruct (pendingHostId r) as [p|]; [|reflexivity].
        now rewrite (Hgone p eq_refl). }
      split.
      * intros [k u] rest Hu Hk. simpl in Hk. split.
        -- etransitivity; [|etransitivity; [exact Hfall|]].
           ++ destruct (pendingHostId r) as [p|]; [|reflexivity].
              destruct (map_has p (users r)); reflexivity.
           ++ unfold firstKey. rewrite Hu. simpl.
              destruct (String.eqb_spec k EmptyString); [contradiction | reflexivity].
        -- intros Hs. rewrite (sortByJoin_id _ Hs), Hu. reflexivity.
      * intros Hu. etransitivity; [|etransitivity; [exact Hfall|]].
        -- destruct (pendingHostId r) as [p|]; [|reflexivity].
           destruct (map_has p (users r)); reflexivity.
        -- unfold firstKey. now rewrite Hu.
Qed.

Lemma reachable_fire roomId w :
  reachable w -> In roomId (w_timers w) -> reachable (fire roomId w).
Proof.
  intros Hw Hin. eapply reach_step; [exact Hw|].
  apply (step_timer roomId w _ (snd (spin_commit roomId (w_rooms w))) Hin).
  now destruct (spin_commit roomId (w_rooms w)).
Qed.

Lemma rejoin_reachable : reachable rejoin_world.
Proof.
  unfold rejoin_world.
  apply reachable_run; [|vm_compute; discriminate].
  apply reachable_run; [|vm_compute; discriminate].
  apply reachable_fire; [|vm_compute; now left].
  apply reachable_run; [|vm_compute; discriminate].
  apply reachable_run; [|vm_compute; discriminate].
  apply reachable_run; [|vm_compute; discriminate].
  apply demo_reachable.
Qed.

Lemma spin_commit_resolves_witness :
  map_get "ADGKPS" (w_rooms rejoin_world) = Some rejoin_room /\
  exists host,
    spin_commit "ADGKPS" (w_rooms rejoin_world)
    = (map_set "ADGKPS" (mkRoom (users rejoin_room) host 2 None None)
               (w_rooms rejoin_world),
       [Emit (ToRoom "ADGKPS")
             (roomState "ADGKPS" (mkRoom (users rejoin_room) host 2 None None))]) /\
    host = "A"%string.
Proof.
  assert (Hget : map_get "ADGKPS" (w_rooms rejoin_world) = Some rejoin_room)
    by (vm_compute; reflexivity).
  split; [exact Hget|].
  destruct (proj2 (spin_commit_resolves "ADGKPS" (w_rooms rejoin_world)) rejoin_room Hget)
    as (host & Hrun & _ & _ & Hfall).
  exists host. split; [exact Hrun|].
  assert (Hgone : forall p, pendingHostId rejoin_room = Some p ->
                            map_has p (users rejoin_room) = false).
  { intros p Hp. injection Hp as <-. reflexivity. }
  apply (proj1 (Hfall Hgone) ("A"%string, mkUser "A" "Al" 8)
               [("B"%string, mkUser "B" "alex 2" 6)] eq_refl).
  discriminate.
Defined.

(** C2 as stated fails on "the earliest-joined remaining member". The server
    reaches [rejoin_world]: in its room the pending winner "C" has left, and
    of the two members that remain "B" joined at time 6 and "A", who joined
    again, at time 8, so "B" is the earliest-joined and heads the list that
    [room_state] sends. The callback makes "A", the first key of [users],
    the host, in place of "B". *)
Lemma spin_commit_not_earliest_join :
  reachable rejoin_world /\
  map_get "ADGKPS" (w_rooms rejoin_world) = Some rejoin_room /\
  pendingHostId rejoin_room = Some "C"%string /\
  map_has "C" (users rejoin_room) = false /\
  map_values (users rejoin_room) = [mkUser "A" "Al" 8; mkUser "B" "alex 2" 6] /\
  turnOrder rejoin_room = [mkUser "B" "alex 2" 6; mkUser "A" "Al" 8] /\
  hostId rejoin_room = "B"%string /\
  exists r',
    map_get "ADGKPS" (fst (spin_commit "ADGKPS" (w_rooms rejoin_world))) = Some r' /\
    hostId r' = "A"%string /\ hostId r' <> "B"%string.
Proof.
  split; [exact rejoin_reachable|].
  split; [vm_compute; reflexivity|].
  repeat (split; [reflexivity|]).
  eexists. split; [vm_compute; reflexivity|].
  split; [reflexivity | discriminate].
Qed.

(** ** Strings *)

Local Open Scope string_scope.

Lemma append_nil_r s : s ++ EmptyString = s.
Proof. induction s as [|c t IH]; simpl; [reflexivity | now rewrite IH]. Qed.

Lemma append_assoc s t u : (s ++ t) ++ u = s ++ (t ++ u).
Proof. induction s as [|c s IH]; simpl; [reflexivity | now rewrite IH]. Qed.

Lemma length_append s t : String.length (s ++ t) = (String.length s + String.length t)%nat.
Proof. induction s as [|c s IH]; simpl; [reflexivity | now rewrite IH]. Qed.

Lemma append_snoc_nonempty s c : s ++ String c EmptyString <> EmptyString.
Proof. destruct s; discriminate. Qed.

Lemma slice0_length n s : (String.length (JS.slice0 n s) <= n)%nat.
Proof.
  unfold JS.slice0. revert s. induction n as [|n IH]; intros [|c t]; simpl; try lia.
  specialize (IH t). lia.
Qed.

Lemma slice0_empty n s : JS.slice0 (S n) s = EmptyString -> s = EmptyString.
Proof. destruct s; simpl; [reflexivity | discriminate]. Qed.

(** *** [trim] and the words *)

Lemma wordsFrom_nonempty s : forall cur, cur <> EmptyString -> wordsFrom cur s <> [].
Proof.
  induction s as [|c t IH]; intros cur Hcur; simpl.
  - destruct (String.eqb_spec cur EmptyString); [contradiction | discriminate].
  - destruct (JS.isWhiteSpace c).
    + destruct (String.eqb_spec cur EmptyString); [contradiction | discriminate].
    + apply IH, append_snoc_nonempty.
Qed.

Lemma words_trimStart s : words (JS.trimStart s) = words s.
Proof.
  unfold words. induction s as [|c t IH]; simpl; [reflexivity|].
  destruct (JS.isWhiteSpace c) eqn:Hc; simpl; [exact IH | now rewrite Hc].
Qed.

Lemma wordsFrom_trimEnd s : forall cur, wordsFrom cur (JS.trimEnd s) = wordsFrom cur s.
Proof.
  induction s as [|c t IH]; intros cur; simpl; [reflexivity|].
  destruct (JS.trimEnd t) as [|a b] eqn:Ht.
  - destruct (JS.isWhiteSpace c) eqn:Hc; simpl.
    + rewrite <- (IH EmptyString). simpl.
      destruct (String.eqb cur EmptyString); reflexivity.
    + rewrite Hc, <- IH. reflexivity.
  - simpl. destruct (JS.isWhiteSpace c).
    + rewrite <- (IH EmptyString). reflexivity.
    + rewrite <- IH. reflexivity.
Qed.

Lemma words_trim s : words (JS.trim s) = words s.
Proof. unfold JS.trim, words. rewrite wordsFrom_trimEnd. apply words_trimStart. Qed.

Lemma trimEnd_idem s : JS.trimEnd (JS.trimEnd s) = JS.trimEnd s.
Proof.
  induction s as [|c t IH]; simpl; [reflexivity|].
  destruct (JS.trimEnd t) as [|a b] eqn:Ht.
  - destruct (JS.isWhiteSpace c) eqn:Hc; simpl; [reflexivity | now rewrite Hc].
  - change (JS.trimEnd (String c (String a b)))
      with (match JS.trimEnd (String a b) with
            | EmptyString => if JS.isWhiteSpace c then EmptyString else String c EmptyString
            | t' => String c t'
            end).
    now rewrite IH.
Qed.

(** An end without white space: what [trimEnd] leaves alone. *)
Lemma trimEnd_fixed_tail c t :
  JS.trimEnd (String c t) = String c t ->
  JS.trimEnd t = t /\ (JS.isWhiteSpace c = true -> t <> EmptyString).
Proof.
  simpl. destruct (JS.trimEnd t) as [|a b] eqn:Ht.
  - destruct (JS.isWhiteSpace c); [discriminate|].
    intros [= <-]. split; [reflexivity | discriminate].
  - intros [= <-]. split; [reflexivity | discriminate].
Qed.

Lemma words_none_trimEnd s : words s = [] -> JS.trimEnd s = EmptyString.
Proof.
  unfold words. induction s as [|c t IH]; simpl; [reflexivity|].
  destruct (JS.isWhiteSpace c) eqn:Hc.
  - intros H. now rewrite (IH H).
  - intros H. exfalso. revert H. apply wordsFrom_nonempty. discriminate.
Qed.

Lemma concat_cons w ws :
  ws <> [] -> String.concat " " (w :: ws) = w ++ " " ++ String.concat " " ws.
Proof. destruct ws; [contradiction | reflexivity]. Qed.

Lemma replaceRuns_words s :
  JS.trimEnd s = s ->
  (forall cur, cur <> EmptyString ->
     cur ++ JS.replaceRuns false s = String.concat " " (wordsFrom cur s)) /\
  JS.replaceRuns true s = String.concat " " (wordsFrom EmptyString s).
Proof.
  induction s as [|c t IH]; intros Hfix.
  - split; [|reflexivity]. intros cur Hcur. simpl.
    destruct (String.eqb_spec cur EmptyString); [contradiction|]. apply append_nil_r.
  - apply trimEnd_fixed_tail in Hfix as [Ht Hc].
    destruct (IH Ht) as [IH1 IH2]. simpl.
    destruct (JS.isWhiteSpace c) eqn:Hws.
    + split; [|exact IH2]. intros cur Hcur.
      destruct (String.eqb_spec cur EmptyString); [contradiction|].
      rewrite concat_cons, IH2; [reflexivity|].
      intros Hnone. apply words_none_trimEnd in Hnone.
      rewrite Ht in Hnone. now apply Hc.
    + split.
      * intros cur Hcur. rewrite <- IH1 by apply append_snoc_nonempty.
        now rewrite append_assoc.
      * rewrite <- (IH1 (String c EmptyString)) by discriminate. reflexivity.
Qed.

Lemma trim_head s :
  match JS.trim s with
  | EmptyString => True
  | String c _ => JS.isWhiteSpace c = false
  end.
Proof.
  unfold JS.trim.
  assert (H : match JS.trimStart s with
              | EmptyString => True | String c _ => JS.isWhiteSpace c = false end).
  { induction s as [|c t IH]; simpl; [exact I|].
    destruct (JS.isWhiteSpace c) eqn:Hc; [exact IH | exact Hc]. }
  destruct (JS.trimStart s) as [|c t]; simpl; [exact I|].
  destruct (JS.trimEnd t); [|exact H].
  now rewrite H.
Qed.

(** [trim] then [replace(/\s+/g, ' ')] leaves the words, one space apart. *)
Lemma collapse_trim s : JS.collapseWhiteSpace (JS.trim s) = normalizeSpec s.
Proof.
  unfold normalizeSpec. rewrite <- words_trim. unfold JS.collapseWhiteSpace, words.
  pose proof (trim_head s) as Hhead.
  assert (Hfix : JS.trimEnd (JS.trim s) = JS.trim s) by apply trimEnd_idem.
  destruct (JS.trim s) as [|c t]; [reflexivity|].
  apply trimEnd_fixed_tail in Hfix as [Ht _].
  simpl. rewrite Hhead.
  now rewrite <- (proj1 (replaceRuns_words t Ht) (String c EmptyString)) by discriminate.
Qed.

(** *** [sanitizeName] (C9) *)

Lemma wordsFrom_words_nonempty s :
  forall cur, Forall (fun w => w <> EmptyString) (wordsFrom cur s).
Proof.
  induction s as [|c t IH]; intros cur; simpl.
  - destruct (String.eqb_spec cur EmptyString); repeat constructor; assumption.
  - destruct (JS.isWhiteSpace c); [|apply IH].
    destruct (String.eqb_spec cur EmptyString); [apply IH|].
    constructor; [assumption | apply IH].
Qed.

Lemma normalizeSpec_empty s : normalizeSpec s = EmptyString <-> words s = [].
Proof.
  unfold normalizeSpec, words. pose proof (wordsFrom_words_nonempty s EmptyString) as Hall.
  destruct (wordsFrom EmptyString s) as [|w ws]; [easy|].
  apply Forall_inv in Hall. split; [|discriminate].
  destruct w as [|a b]; [contradiction|].
  destruct ws; simpl; discriminate.
Qed.

Lemma slice0_prefix n s :
  exists rest, s = JS.slice0 n s ++ rest /\
               (rest <> EmptyString -> String.length (JS.slice0 n s) = n).
Proof.
  unfold JS.slice0. revert s. induction n as [|n IH]; intros s.
  - exists s. destruct s; simpl; split; reflexivity.
  - destruct s as [|c t]; simpl.
    + exists EmptyString. split; [reflexivity | contradiction].
    + destruct (IH t) as (rest & Heq & Hlen). exists rest.
      split; [now rewrite <- Heq | intros H; now rewrite Hlen].
Qed.

Lemma placeholder_range (r : Q) :
  (0 <= r < 1)%Q -> 100 <= JS.floor (100 + r * 900) <= 999.
Proof.
  intros [H0 H1]. unfold JS.floor. split.
  - rewrite <- (Qfloor_Z 100). apply Qfloor_resp_le.
    change (inject_Z 100) with 100%Q.
    rewrite <- (Qplus_0_r 100) at 1. apply Qplus_le_r.
    apply Qmult_le_0_compat; [exact H0 | discriminate].
  - assert (H : (inject_Z (Qfloor (100 + r * 900)) < inject_Z 1000)%Q).
    { eapply Qle_lt_trans; [apply Qfloor_le|].
      change (inject_Z 1000) with (100 + 1 * 900)%Q.
      apply Qplus_lt_r. apply Qmult_lt_compat_r; [reflexivity | exact H1]. }
    rewrite <- Zlt_Qlt in H. lia.
Qed.

Lemma three_digits n : 100 <= n <= 999 -> String.length (JS.numToString n) = 3%nat.
Proof.
  intros Hn.
  assert (Hall : forallb (fun k => Nat.eqb (String.length (JS.numToString (100 + Z.of_nat k))) 3)
                         (seq 0 900) = true) by (vm_compute; reflexivity).
  rewrite forallb_forall in Hall.
  specialize (Hall (Z.to_nat (n - 100))).
  rewrite Z2Nat.id, Nat.eqb_eq in Hall by lia.
  replace (100 + (n - 100)) with n in Hall by lia.
  apply Hall. apply in_seq. lia.
Qed.

(** C9. For every raw name and every draw of [Math.random()],
    [sanitizeName] trims the name, turns every run of white space inside it
    into one space (what is left is the words of the name, one space apart)
    and keeps the first 20 code units; when nothing is left it answers
    "Player N" with [100 <= N <= 999]. The answer is never empty and never
    longer than 20. *)
Theorem sanitizeName_spec (r : Q) (raw : option string) :
  (0 <= r < 1)%Q ->
  let given := match raw with Some v => v | None => EmptyString end in
  sanitizeName r raw <> EmptyString /\
  (String.length (sanitizeName r raw) <= 20)%nat /\
  JS.collapseWhiteSpace (JS.trim given) = normalizeSpec given /\
  (words given <> [] ->
     exists rest, normalizeSpec given = sanitizeName r raw ++ rest /\
                  (rest <> EmptyString -> String.length (sanitizeName r raw) = 20%nat)) /\
  (words given = [] ->
     exists n, 100 <= n <= 999 /\ String.length (JS.numToString n) = 3%nat /\
               sanitizeName r raw = "Player " ++ JS.numToString n).
Proof.
  intros Hr given. unfold sanitizeName. fold given. rewrite collapse_trim.
  pose proof (placeholder_range r Hr) as Hn.
  pose proof (three_digits _ Hn) as Hd.
  destruct (String.eqb_spec (JS.slice0 20 (normalizeSpec given)) EmptyString) as [Hcap|Hcap].
  - apply slice0_empty in Hcap as Hnone. apply normalizeSpec_empty in Hnone.
    split; [discriminate|].
    split; [rewrite length_append, Hd; simpl; lia|].
    split; [reflexivity|].
    split; [intros H; contradiction|].
    intros _. eexists. split; [exact Hn|]. split; [exact Hd | reflexivity].
  - split; [exact Hcap|].
    split; [apply slice0_length|].
    split; [reflexivity|].
    split; [intros _; apply slice0_prefix|].
    intros Hnone. apply normalizeSpec_empty in Hnone.
    rewrite Hnone in Hcap. contradiction.
Qed.

Lemma sanitizeName_spec_witness :
  (0 <= 1#2 < 1)%Q /\
  sanitizeName (1#2) (Some "   ") <> EmptyString /\
  (String.length (sanitizeName (1#2) (Some "  Ada   Lovelace ")) <= 20)%nat.
Proof.
  assert (H : (0 <= 1#2 < 1)%Q) by (split; [discriminate | reflexivity]).
  split; [exact H|].
  split.
  - apply (sanitizeName_spec (1#2) (Some "   ") H).
  - apply (sanitizeName_spec (1#2) (Some "  Ada   Lovelace ") H).
Defined.

(** ** [uniqueName] and [set_name] (C6) *)

Lemma set_has_In s l : set_has s l = true <-> In s l.
Proof.
  unfold set_has. rewrite existsb_exists. split.
  - intros (x & Hin & Heq). apply String.eqb_eq in Heq. now subst.
  - intros Hin. exists s. split; [exact Hin | apply String.eqb_refl].
Qed.

Lemma set_has_not_In s l : set_has s l = false <-> ~ In s l.
Proof.
  rewrite <- set_has_In. destruct (set_has s l); split; congruence.
Qed.

Lemma find_seq_first (f : nat -> bool) len : forall start i,
  find f (seq start len) = Some i ->
  (start <= i < start + len)%nat /\ f i = true /\
  forall j, (start <= j < i)%nat -> f j = false.
Proof.
  induction len as [|len IH]; intros start i; simpl; [discriminate|].
  destruct (f start) eqn:Hf.
  - intros [= <-]. split; [lia|]. split; [exact Hf | intros j Hj; lia].
  - intros H. apply IH in H as (Hi & Hfi & Hbefore).
    split; [lia|]. split; [exact Hfi|]. intros j Hj.
    destruct (Nat.eq_dec j start) as [->|Hne]; [exact Hf | apply Hbefore; lia].
Qed.

Lemma find_seq_none (f : nat -> bool) len start :
  find f (seq start len) = None ->
  forall j, (start <= j < start + len)%nat -> f j = false.
Proof.
  intros H j Hj. apply (find_none f _ H). apply in_seq. lia.
Qed.

Lemma member_name_taken r sid u :
  map_get sid (users r) = Some u -> In (JS.toLowerCase (name u)) (takenNames r).
Proof.
  intros Hget. apply map_get_In in Hget. unfold takenNames, map_values.
  apply (in_map (fun u => JS.toLowerCase (name u))).
  now apply (in_map snd) in Hget.
Qed.

Lemma candidate_longer baseName i : candidate baseName i <> baseName.
Proof.
  unfold candidate. intros H. apply (f_equal String.length) in H.
  rewrite length_append in H. simpl in H. lia.
Qed.

Lemma star_longer baseName : baseName ++ " *" <> baseName.
Proof.
  intros H. apply (f_equal String.length) in H.
  rewrite length_append in H. simpl in H. lia.
Qed.

(** The two ways out of [uniqueName]. *)
Lemma uniqueName_free r baseName :
  ~ In (JS.toLowerCase baseName) (takenNames r) -> uniqueName r baseName = baseName.
Proof.
  intros H. apply set_has_not_In in H. unfold uniqueName. now rewrite H.
Qed.

Lemma uniqueName_taken r baseName :
  In (JS.toLowerCase baseName) (takenNames r) ->
  (exists i, (2 <= i <= 98)%nat /\
     uniqueName r baseName = candidate baseName i /\
     ~ In (JS.toLowerCase (candidate baseName i)) (takenNames r) /\
     forall j, (2 <= j < i)%nat ->
               In (JS.toLowerCase (candidate baseName j)) (takenNames r))
  \/ (uniqueName r baseName = baseName ++ " *" /\
      forall j, (2 <= j <= 98)%nat ->
                In (JS.toLowerCase (candidate baseName j)) (takenNames r)).
Proof.
  intros H. apply set_has_In in H. unfold uniqueName. rewrite H. cbn [negb].
  match goal with |- context [find ?f (seq 2 97)] =>
    destruct (find f (seq 2 97)) as [i|] eqn:Hfind end.
  - left. apply find_seq_first in Hfind as (Hi & Hfree & Hbefore).
    exists i. split; [lia|]. split; [reflexivity|].
    split.
    + apply set_has_not_In. now apply negb_true_iff in Hfree.
    + intros j Hj. apply set_has_In.
      specialize (Hbefore j Hj). now apply negb_false_iff in Hbefore.
  - right. split; [reflexivity|]. intros j Hj. apply set_has_In.
    pose proof (find_seq_none _ _ _ Hfind j) as Hj'.
    apply negb_false_iff, Hj'. lia.
Qed.

(** C6, as the code has it. A [set_name] of a member of a room that exists
    resolves the sanitized name against the names of all the users of the
    room, the caller's own current name among them: a name free of any of
    them, case apart, is kept, and a name that matches the caller's own
    current name, case apart, comes back with a suffix, the first of " 2" to
    " 98" that is free, or " *". The user is renamed in place, the state of
    the room is broadcast and the caller gets [{ok: true, name}]. *)
Theorem set_name_resolves
    (sid roomId : string) (raw : option string) (rnd : Q)
    (rooms : registry) (r : room) (u : user) :
  map_get roomId rooms = Some r ->
  map_get sid (users r) = Some u ->
  let baseName := sanitizeName rnd raw in
  let clean := uniqueName r baseName in
  let r' := set_users r (map_set sid (mkUser (id u) clean (joinedAt u)) (users r)) in
  set_name sid roomId raw rnd rooms
  = (map_set roomId r' rooms,
     [Emit (ToRoom roomId) (roomState roomId r'); Ack (AckName clean)]) /\
  (~ In (JS.toLowerCase baseName) (takenNames r) -> clean = baseName) /\
  (JS.toLowerCase baseName = JS.toLowerCase (name u) ->
     clean <> baseName /\
     ((exists i, (2 <= i <= 98)%nat /\ clean = candidate baseName i /\
         ~ In (JS.toLowerCase clean) (takenNames r) /\
         forall j, (2 <= j < i)%nat ->
                   In (JS.toLowerCase (candidate baseName j)) (takenNames r))
      \/ clean = baseName ++ " *")).
Proof.
  intros Hroom Huser baseName clean r'.
  split; [|split].
  - unfold set_name. rewrite Hroom, Huser.
    fold baseName. fold clean. fold r'. now rewrite emitState_set.
  - apply uniqueName_free.
  - intros Hsame.
    assert (Htaken : In (JS.toLowerCase baseName) (takenNames r)).
    { rewrite Hsame. eapply member_name_taken; eauto. }
    destruct (uniqueName_taken r baseName Htaken)
      as [(i & Hi & Heq & Hfree & Hbefore) | [Heq _]]; subst clean; rewrite Heq.
    + split; [apply candidate_longer|]. left. exists i. auto.
    + split; [apply star_longer|]. now right.
Qed.

Lemma set_name_resolves_witness :
  snd (set_name "A" "ADGKPS" (Some "Alex") 0 (w_rooms demo_created))
  = [Emit (ToRoom "ADGKPS")
          (roomState "ADGKPS" (mkRoom [("A", mkUser "A" "Alex 2" 5)] "A" 0 None None));
     Ack (AckName "Alex 2")].
Proof.
  rewrite (proj1 (set_name_resolves "A" "ADGKPS" (Some "Alex") 0 (w_rooms demo_created)
                    (mkRoom [("A", mkUser "A" "Alex" 5)] "A" 0 None None)
                    (mkUser "A" "Alex" 5) eq_refl eq_refl)).
  reflexivity.
Defined.

(** C6 as stated fails: "A" is alone in the room of [demo_created] under the
    name "Alex", so the only name that "alex" matches, case apart, is the
    caller's own; the rename of "A" to "alex" answers "alex 2". *)
Lemma set_name_own_name_suffixed :
  map_get "ADGKPS" (w_rooms demo_created)
  = Some (mkRoom [("A", mkUser "A" "Alex" 5)] "A" 0 None None) /\
  sanitizeName 0 (Some "alex") = "alex" /\
  snd (set_name "A" "ADGKPS" (Some "alex") 0 (w_rooms demo_created))
  = [Emit (ToRoom "ADGKPS")
          (roomState "ADGKPS" (mkRoom [("A", mkUser "A" "alex 2" 5)] "A" 0 None None));
     Ack (AckName "alex 2")] /\
  ~ In (Ack (AckName "alex"))
       (snd (set_name "A" "ADGKPS" (Some "alex") 0 (w_rooms demo_created))).
Proof.
  split; [vm_compute; reflexivity|].
  split; [vm_compute; reflexivity|].
  split; [vm_compute; reflexivity|].
  vm_compute. intros [H|[H|[]]]; discriminate H.
Qed.

(** ** [genCode] (C8) *)

Lemma get_In n : forall s c, String.get n s = Some c -> In c (list_ascii_of_string s).
Proof.
  induction n as [|n IH]; intros [|a t] c; simpl; try discriminate.
  - intros [= ->]. now left.
  - intros H. right. now apply IH.
Qed.

Lemma get_lt n : forall s, (n < String.length s)%nat -> exists c, String.get n s = Some c.
Proof.
  induction n as [|n IH]; intros [|a t]; simpl; try lia.
  - intros _. now exists a.
  - intros H. apply IH. lia.
Qed.

(** A draw in [[0, 1)] indexes inside the alphabet. *)
Lemma draw_index (r : Q) :
  (0 <= r < 1)%Q ->
  0 <= JS.truncInt32 (r * inject_Z (Z.of_nat (String.length alphabet))) < 31.
Proof.
  intros [H0 H1]. unfold JS.truncInt32.
  change (inject_Z (Z.of_nat (String.length alphabet))) with 31%Q.
  assert (Hpos : (0 <= r * 31)%Q) by (apply Qmult_le_0_compat; [exact H0 | discriminate]).
  apply Qle_bool_iff in Hpos as Hb. rewrite Hb.
  assert (Hlo : 0 <= Qfloor (r * 31)).
  { rewrite <- (Qfloor_Z 0). now apply Qfloor_resp_le. }
  assert (Hhi : Qfloor (r * 31) < 31).
  { rewrite Zlt_Qlt. eapply Qle_lt_trans; [apply Qfloor_le|].
    change (inject_Z 31) with (1 * 31)%Q.
    apply Qmult_lt_compat_r; [reflexivity | exact H1]. }
  rewrite toInt32_small; [lia | unfold int32; lia].
Qed.

Lemma drawCode_spec draws :
  Forall (fun r => (0 <= r < 1)%Q) draws ->
  String.length (drawCode draws) = List.length draws /\
  Forall (fun c => In c (list_ascii_of_string alphabet))
         (list_ascii_of_string (drawCode draws)).
Proof.
  induction 1 as [|r draws Hr _ [IHlen IHin]]; [split; [reflexivity | constructor]|].
  cbn [drawCode]. pose proof (draw_index r Hr) as Hi.
  set (i := JS.truncInt32 _) in *.
  unfold JS.charAt. destruct (Z.ltb_spec i 0); [lia|].
  destruct (get_lt (Z.to_nat i) alphabet) as [c Hc]; [simpl; lia|].
  rewrite Hc. cbn [String.length List.length list_ascii_of_string].
  split; [now rewrite IHlen|].
  constructor; [eapply get_In; eauto | exact IHin].
Qed.

(** What [genCode] returns: six symbols of the alphabet that are the code of
    no room, drawn after as many collisions as it took. *)
Lemma genCode_spec (rnd : nat -> Q) (rooms : registry) fuel : forall pos code pos',
  (forall k, (0 <= rnd k < 1)%Q) ->
  genCode fuel rnd pos rooms = Some (code, pos') ->
  String.length code = 6%nat /\
  Forall (fun c => In c (list_ascii_of_string alphabet)) (list_ascii_of_string code) /\
  map_has code rooms = false /\
  exists tries, (tries < fuel)%nat /\ pos' = (pos + 6 * S tries)%nat /\
    code = drawCode (List.map rnd (seq (pos + 6 * tries) 6)) /\
    forall t, (t < tries)%nat ->
      map_has (drawCode (List.map rnd (seq (pos + 6 * t) 6))) rooms = true.
Proof.
  intros pos code pos' Hrnd. revert pos.
  induction fuel as [|fuel IH]; intros pos; cbn [genCode]; [discriminate|].
  destruct (map_has (drawCode (List.map rnd (seq pos 6))) rooms) eqn:Hhit.
  - intros H. apply IH in H as (Hlen & Hin & Hfree & tries & Hlt & Hpos & Hcode & Hbefore).
    repeat (split; [assumption|]).
    exists (S tries). split; [lia|]. split; [lia|].
    split; [rewrite Hcode; do 3 f_equal; lia|].
    intros [|t] Ht.
    + now rewrite Nat.mul_0_r, Nat.add_0_r.
    + rewrite <- (Hbefore t) by lia. do 4 f_equal. lia.
  - intros [= <- <-].
    destruct (drawCode_spec (List.map rnd (seq pos 6))) as [Hlen Hin].
    { apply Forall_forall. intros r Hr. apply in_map_iff in Hr as (k & <- & _). apply Hrnd. }
    rewrite length_map, length_seq in Hlen.
    repeat (split; [assumption|]).
    exists 0%nat. split; [lia|]. split; [lia|].
    split; [now rewrite Nat.mul_0_r, Nat.add_0_r | intros t Ht; lia].
Qed.

(** [genCode] returns as soon as an attempt is free and the fuel reaches it. *)
Lemma genCode_returns (rnd : nat -> Q) (rooms : registry) tries : forall fuel pos,
  (tries < fuel)%nat ->
  map_has (drawCode (List.map rnd (seq (pos + 6 * tries) 6))) rooms = false ->
  exists code pos', genCode fuel rnd pos rooms = Some (code, pos').
Proof.
  induction tries as [|tries IH]; intros [|fuel] pos Hlt Hfree; try lia; cbn [genCode].
  - rewrite Nat.mul_0_r, Nat.add_0_r in Hfree. rewrite Hfree. eauto.
  - destruct (map_has (drawCode (List.map rnd (seq pos 6))) rooms); [|eauto].
    apply IH; [lia|]. rewrite <- Hfree. do 4 f_equal. lia.
Qed.

(** C8, on the code. The alphabet of [genCode] has 31 symbols, not 32: the
    comment beside it names I, O, 1 and 0 as left out, and L is left out as
    well. With the draws 0, 0.1, ..., 0.5 and no room, the code is "ADGKPS". *)
Theorem alphabet_has_31_symbols :
  String.length alphabet = 31%nat /\
  ~ In "L"%char (list_ascii_of_string alphabet) /\
  String.length ("ABCDEFGHJKLMNPQRSTUVWXYZ23456789") = 32%nat /\
  genCode 1 demo_tape 0 [] = Some ("ADGKPS", 6%nat).
Proof.
  split; [reflexivity|]. split; [|split; vm_compute; reflexivity].
  vm_compute. intuition discriminate.
Qed.

(** * Further properties of the handlers *)

(** ** Invariants of the rooms that do not depend on the host *)

Lemma every_room_set P roomId r rooms :
  every_room P rooms -> P r -> every_room P (map_set roomId r rooms).
Proof.
  intros Hall Hr k r0 Hin.
  apply map_set_In in Hin as [[_ ->]|Hin]; [exact Hr | eauto].
Qed.

Lemma every_room_delete P roomId rooms :
  every_room P rooms -> every_room P (map_delete roomId rooms).
Proof. intros Hall k r0 Hin. apply map_delete_In in Hin. eauto. Qed.

Lemma every_room_get P roomId r rooms :
  every_room P rooms -> map_get roomId rooms = Some r -> P r.
Proof. intros Hall Hget. apply map_get_In in Hget. eauto. Qed.

Section RoomInvariant.
Variable P : room -> Prop.
Hypothesis P_create : forall sid clean now,
  P (mkRoom [(sid, newUser sid clean now)] sid 0 None None).
Hypothesis P_join : forall r sid clean now,
  P r -> P (set_users r (map_set sid (newUser sid clean now) (users r))).
Hypothesis P_rename : forall r sid u clean,
  P r -> map_get sid (users r) = Some u ->
  P (set_users r (map_set sid (mkUser (id u) clean (joinedAt u)) (users r))).
Hypothesis P_leave : forall r sid,
  P r -> P (set_users r (map_delete sid (users r))).
Hypothesis P_host : forall r h, P r -> P (set_hostId r h).
Hypothesis P_count : forall r n,
  P r -> P (mkRoom (users r) (hostId r) n (lockUntil r) (pendingHostId r)).
Hypothesis P_spin : forall r n t w,
  P r -> P (mkRoom (users r) (hostId r) n (Some t) (Some w)).
Hypothesis P_commit : forall r h,
  P r -> P (mkRoom (users r) h (spins r) None None).

Lemma create_room_every sid raw now fuel rnd rooms rooms' out :
  every_room P rooms ->
  create_room sid raw now fuel rnd rooms = Some (rooms', out) ->
  every_room P rooms'.
Proof.
  unfold create_room. intros Hall.
  destruct (genCode fuel rnd 0 rooms) as [[roomId pos]|]; [|discriminate].
  intros [= <- _]. apply every_room_set; [exact Hall | apply P_create].
Qed.

Lemma join_room_every sid roomId raw now rnd rooms :
  every_room P rooms -> every_room P (fst (join_room sid roomId raw now rnd rooms)).
Proof.
  unfold join_room. intros Hall.
  destruct (map_get roomId rooms) as [r|] eqn:Hget; simpl; [|exact Hall].
  apply every_room_set; [exact Hall|]. apply P_join. eapply every_room_get; eauto.
Qed.

Lemma leave_room_every sid roomId rooms :
  every_room P rooms -> every_room P (fst (leave_room sid roomId rooms)).
Proof.
  unfold leave_room. intros Hall.
  destruct (map_get roomId rooms) as [r|] eqn:Hget; simpl; [|exact Hall].
  pose proof (every_room_get _ _ _ _ Hall Hget) as Hr.
  destruct (String.eqb (hostId r) sid).
  - destruct (firstKey _) as [next|]; simpl.
    + apply every_room_set; [exact Hall|]. apply P_host, P_leave, Hr.
    + now apply every_room_delete.
  - simpl. apply every_room_set; [exact Hall | apply P_leave, Hr].
Qed.

Lemma set_name_every sid roomId raw rnd rooms :
  every_room P rooms -> every_room P (fst (set_name sid roomId raw rnd rooms)).
Proof.
  unfold set_name. intros Hall.
  destruct (map_get roomId rooms) as [r|] eqn:Hget; simpl; [|exact Hall].
  destruct (map_get sid (users r)) as [u|] eqn:Hu; simpl; [|exact Hall].
  apply every_room_set; [exact Hall|].
  apply P_rename; [eapply every_room_get; eauto | exact Hu].
Qed.

Lemma spin_request_every sid roomId now seed later rt rd rooms :
  every_room P rooms ->
  every_room P (fst (spin_request sid roomId now seed later rt rd rooms)).
Proof.
  unfold spin_request. intros Hall.
  destruct (map_get roomId rooms) as [r|] eqn:Hget; simpl; [|exact Hall].
  pose proof (every_room_get _ _ _ _ Hall Hget) as Hr.
  destruct (negb _ && negb _); [exact Hall|].
  destruct (locked r now); [exact Hall|].
  destruct (_ <? 2)%Z; [exact Hall|].
  destruct (nth_error _ _); simpl; apply every_room_set; auto.
Qed.

Lemma spin_commit_every roomId rooms :
  every_room P rooms -> every_room P (fst (spin_commit roomId rooms)).
Proof.
  unfold spin_commit. intros Hall.
  destruct (map_get roomId rooms) as [r|] eqn:Hget; simpl; [|exact Hall].
  apply every_room_set; [exact Hall|]. apply P_commit. eapply every_room_get; eauto.
Qed.

Lemma disconnect_loop_every sid keys : forall rooms,
  every_room P rooms -> every_room P (fst (disconnect_loop sid keys rooms)).
Proof.
  induction keys as [|roomId keys IH]; intros rooms Hall; simpl; [exact Hall|].
  destruct (map_get roomId rooms) as [r|] eqn:Hget; [|now apply IH].
  pose proof (every_room_get _ _ _ _ Hall Hget) as Hr.
  destruct (map_has sid (users r)); simpl; [|now apply IH].
  destruct (String.eqb (hostId r) sid).
  - destruct (firstKey _) as [next|].
    + match goal with |- context [disconnect_loop sid keys ?rs] =>
        specialize (IH rs); destruct (disconnect_loop sid keys rs) end.
      apply IH. apply every_room_set; [exact Hall|]. apply P_host, P_leave, Hr.
    + apply IH. now apply every_room_delete.
  - match goal with |- context [disconnect_loop sid keys ?rs] =>
      specialize (IH rs); destruct (disconnect_loop sid keys rs) end.
    apply IH. apply every_room_set; [exact Hall | apply P_leave, Hr].
Qed.

Lemma step_every w out w' :
  every_room P (w_rooms w) -> step w out w' -> every_room P (w_rooms w').
Proof.
  intros Hall Hstep.
  destruct Hstep as [sid q w rooms' out H | roomId w rooms' out _ H]; simpl.
  - destruct q; simpl in H.
    + eapply create_room_every; eauto.
    + injection H as H. apply (f_equal fst) in H. simpl in H. subst rooms'. now apply join_room_every.
    + injection H as H. apply (f_equal fst) in H. simpl in H. subst rooms'. now apply leave_room_every.
    + injection H as H. apply (f_equal fst) in H. simpl in H. subst rooms'. now apply set_name_every.
    + injection H as H. apply (f_equal fst) in H. simpl in H. subst rooms'. now apply spin_request_every.
    + injection H as H. apply (f_equal fst) in H. simpl in H. subst rooms'. now apply disconnect_loop_every.
  - apply (f_equal fst) in H. simpl in H. subst rooms'. now apply spin_commit_every.
Qed.

Lemma reachable_every w : reachable w -> every_room P (w_rooms w).
Proof.
  induction 1 as [|w out w' _ IH Hstep]; [intros k r [] | eapply step_every; eauto].
Qed.
End RoomInvariant.

Lemma reachable_hosts w : reachable w -> hosts_are_members (w_rooms w).
Proof.
  induction 1 as [|w out w' _ IH Hstep]; [intros k r [] | eapply step_hosts; eauto].
Qed.

Lemma demo_left_room_get : map_get "ADGKPS" (w_rooms demo_left) = Some demo_left_room.
Proof. vm_compute. reflexivity. Qed.

(** X1. A room of the registry always has a user: in every state that the
    server reaches, no room is left with an empty [users] map (the handlers
    delete the room when its host is the last to go). *)
Theorem rooms_never_empty (w : world) :
  reachable w ->
  forall roomId r, map_get roomId (w_rooms w) = Some r -> users r <> [].
Proof.
  intros Hreach roomId r Hget Hnil.
  pose proof (hosts_get _ _ _ (reachable_hosts w Hreach) Hget) as Hhost.
  unfold host_is_member, map_has in Hhost. rewrite Hnil in Hhost. discriminate.
Qed.

Lemma rooms_never_empty_witness :
  reachable demo_left /\ users demo_left_room <> [].
Proof.
  split; [apply demo_reachable|].
  apply (rooms_never_empty demo_left (proj2 (proj2 (proj2 demo_reachable)))
           "ADGKPS" demo_left_room).
  vm_compute. reflexivity.
Defined.

(** X2. In every state that the server reaches, a room has a pending winner
    exactly when it has a lock: [spin_request] sets [pendingHostId] and
    [lockUntil] together, the deferred commit clears them together, and no
    other handler writes either. *)
Theorem pending_only_with_lock (w : world) :
  reachable w ->
  forall roomId r, map_get roomId (w_rooms w) = Some r ->
    (lockUntil r = None <-> pendingHostId r = None).
Proof.
  intros Hreach roomId r Hget.
  apply (every_room_get lock_with_pending roomId r (w_rooms w)); [|exact Hget].
  apply reachable_every; [ .. | exact Hreach];
    unfold lock_with_pending; simpl; intros; try tauto; split; discriminate.
Qed.

Lemma pending_only_with_lock_witness :
  reachable demo_left /\
  (lockUntil demo_left_room = None <-> pendingHostId demo_left_room = None).
Proof.
  split; [apply demo_reachable|].
  apply (pending_only_with_lock demo_left (proj2 (proj2 (proj2 demo_reachable)))
           "ADGKPS" demo_left_room).
  vm_compute. reflexivity.
Defined.

(** X3. In every state that the server reaches, every user of every room is
    stored under its own socket id: the [id] of the record under key [k] of
    [users] is [k]. *)
Theorem users_keyed_by_id (w : world) :
  reachable w ->
  forall roomId r, map_get roomId (w_rooms w) = Some r ->
  forall k u, map_get k (users r) = Some u -> id u = k.
Proof.
  intros Hreach roomId r Hget k u Hu.
  assert (Hall : every_room keys_match_ids (w_rooms w)).
  { apply reachable_every; [ .. | exact Hreach]; unfold keys_match_ids; simpl.
    - intros sid clean now k0 u0 [[= <- <-]|[]]. reflexivity.
    - intros r0 sid clean now Hr k0 u0 Hin.
      apply map_set_In in Hin as [[-> ->]|Hin]; [reflexivity | eauto].
    - intros r0 sid u0 clean Hr Hold k0 u1 Hin.
      apply map_set_In in Hin as [[-> ->]|Hin]; [|eauto].
      simpl. apply Hr. now apply map_get_In.
    - intros r0 sid Hr k0 u0 Hin. apply map_delete_In in Hin. eauto.
    - intros r0 h Hr. exact Hr.
    - intros r0 n Hr. exact Hr.
    - intros r0 n t0 w0 Hr. exact Hr.
    - intros r0 h Hr. exact Hr. }
  apply (every_room_get _ _ _ _ Hall Hget). now apply map_get_In.
Qed.

Lemma users_keyed_by_id_witness :
  reachable demo_spun /\ id (mkUser "B" "alex 2" 6) = "B".
Proof.
  split; [apply demo_reachable|].
  eapply (users_keyed_by_id demo_spun (proj1 (proj2 (proj2 demo_reachable)))
            "ADGKPS"
            (mkRoom [("A", mkUser "A" "Alex" 5); ("B", mkUser "B" "alex 2" 6)]
                    "A" 1 (Some 5450) (Some "B")));
    vm_compute; reflexivity.
Defined.

(** ** [disconnect] *)

Lemma map_has_delete_same {V} k (m : jsmap V) : map_has k (map_delete k m) = false.
Proof. unfold map_has. now rewrite map_get_delete_same. Qed.

Lemma map_get_keys {V} k (m : jsmap V) v :
  map_get k m = Some v -> In k (map_keys m).
Proof. intros H. apply map_get_In in H. now apply (in_map fst) in H. Qed.

Lemma emitState_room_state roomId rooms : Forall is_room_state (emitState roomId rooms).
Proof.
  unfold emitState. destruct (map_get roomId rooms) as [r|]; [|constructor].
  constructor; [|constructor]. unfold is_room_state, roomState. eauto 10.
Qed.

(** What the loop has still to visit, or is free of the socket already. *)
Lemma disconnect_loop_clears sid keys : forall rooms,
  (forall k r, map_get k rooms = Some r ->
               In k keys \/ map_has sid (users r) = false) ->
  forall k r, map_get k (fst (disconnect_loop sid keys rooms)) = Some r ->
              map_has sid (users r) = false.
Proof.
  induction keys as [|roomId keys IH]; intros rooms Hinv; cbn [disconnect_loop].
  - intros k r Hget. destruct (Hinv k r Hget) as [[]|H]. exact H.
  - destruct (map_get roomId rooms) as [r0|] eqn:Hroom.
    + destruct (map_has sid (users r0)) eqn:Hmem; cbn [negb].
      * assert (Hstep : forall next k r,
                  map_get k (map_set roomId next rooms) = Some r ->
                  users next = map_delete sid (users r0) ->
                  In k keys \/ map_has sid (users r) = false).
        { intros next k r Hget Hu. destruct (String.eqb_spec k roomId) as [->|Hne].
          - rewrite map_get_set_same in Hget. injection Hget as <-.
            right. rewrite Hu. apply map_has_delete_same.
          - rewrite map_get_set_other in Hget by exact Hne.
            destruct (Hinv k r Hget) as [[Heq|Hin]|Hfree]; auto. congruence. }
        destruct (String.eqb (hostId _) sid).
        -- destruct (firstKey _) as [next|].
           ++ match goal with |- context [disconnect_loop sid keys ?rs] =>
                specialize (IH rs); destruct (disconnect_loop sid keys rs) as [rs' out'] end.
              apply IH. intros k r Hget. eapply Hstep; eauto.
           ++ apply IH. intros k r Hget.
              destruct (String.eqb_spec k roomId) as [->|Hne].
              ** now rewrite map_get_delete_same in Hget.
              ** rewrite map_get_delete_other in Hget by exact Hne.
                 destruct (Hinv k r Hget) as [[Heq|Hin]|Hfree]; auto. congruence.
        -- match goal with |- context [disconnect_loop sid keys ?rs] =>
             specialize (IH rs); destruct (disconnect_loop sid keys rs) as [rs' out'] end.
           apply IH. intros k r Hget. eapply Hstep; eauto.
      * apply IH. intros k r Hget.
        destruct (Hinv k r Hget) as [[Heq|Hin]|Hfree]; auto.
        subst k. right. congruence.
    + apply IH. intros k r Hget.
      destruct (Hinv k r Hget) as [[Heq|Hin]|Hfree]; auto. congruence.
Qed.

Lemma disconnect_loop_keeps_others sid keys : forall rooms k r,
  map_get k rooms = Some r -> map_has sid (users r) = false ->
  map_get k (fst (disconnect_loop sid keys rooms)) = Some r.
Proof.
  induction keys as [|roomId keys IH]; intros rooms k r Hget Hfree;
    cbn [disconnect_loop]; [exact Hget|].
  destruct (map_get roomId rooms) as [r0|] eqn:Hroom; [|now apply IH].
  destruct (map_has sid (users r0)) eqn:Hmem; cbn [negb]; [|now apply IH].
  assert (Hne : k <> roomId) by (intros ->; congruence).
  destruct (String.eqb (hostId _) sid).
  - destruct (firstKey _) as [next|].
    + match goal with |- context [disconnect_loop sid keys ?rs] =>
        specialize (IH rs k r); destruct (disconnect_loop sid keys rs) as [rs' out'] end.
      apply IH; [now rewrite map_get_set_other | exact Hfree].
    + apply IH; [now rewrite map_get_delete_other | exact Hfree].
  - match goal with |- context [disconnect_loop sid keys ?rs] =>
      specialize (IH rs k r); destruct (disconnect_loop sid keys rs) as [rs' out'] end.
    apply IH; [now rewrite map_get_set_other | exact Hfree].
Qed.

Lemma disconnect_loop_outputs sid keys : forall rooms,
  Forall is_room_state (snd (disconnect_loop sid keys rooms)).
Proof.
  induction keys as [|roomId keys IH]; intros rooms; cbn [disconnect_loop];
    [constructor|].
  destruct (map_get roomId rooms) as [r0|]; [|apply IH].
  destruct (map_has sid (users r0)); cbn [negb]; [|apply IH].
  destruct (String.eqb (hostId _) sid).
  - destruct (firstKey _) as [next|]; [|apply IH].
    match goal with |- context [disconnect_loop sid keys ?rs] =>
      specialize (IH rs); destruct (disconnect_loop sid keys rs) as [rs' out'] end.
    apply Forall_app. split; [apply emitState_room_state | exact IH].
  - match goal with |- context [disconnect_loop sid keys ?rs] =>
      specialize (IH rs); destruct (disconnect_loop sid keys rs) as [rs' out'] end.
    apply Forall_app. split; [apply emitState_room_state | exact IH].
Qed.

(** X4. After [disconnect] the socket is a user of no room of the registry;
    a room it was not in is left as it was; and all that goes out is
    [room_state] broadcasts to rooms: no acknowledgement, nothing to the
    socket itself. *)
Theorem disconnect_clears_socket (sid : string) (rooms : registry) :
  (forall roomId r, map_get roomId (fst (disconnect sid rooms)) = Some r ->
                    map_has sid (users r) = false) /\
  (forall roomId r, map_get roomId rooms = Some r ->
                    map_has sid (users r) = false ->
                    map_get roomId (fst (disconnect sid rooms)) = Some r) /\
  Forall is_room_state (snd (disconnect sid rooms)).
Proof.
  unfold disconnect. split; [|split].
  - apply disconnect_loop_clears. intros k r Hget. left. eapply map_get_keys; eauto.
  - intros roomId r. apply disconnect_loop_keeps_others.
  - apply disconnect_loop_outputs.
Qed.

Lemma disconnect_clears_socket_witness :
  map_get "ADGKPS" (fst (disconnect "B" demo_two_rooms))
  = Some (mkRoom [("A", mkUser "A" "Alex" 5)] "A" 1 (Some 5450) (Some "B")) /\
  map_has "B" [("A", mkUser "A" "Alex" 5)] = false /\
  map_get "MNPQRS" (fst (disconnect "B" demo_two_rooms)) = None.
Proof.
  split; [vm_compute; reflexivity|]. split; [|vm_compute; reflexivity].
  apply (proj1 (disconnect_clears_socket "B" demo_two_rooms) "ADGKPS"
           (mkRoom [("A", mkUser "A" "Alex" 5)] "A" 1 (Some 5450) (Some "B"))).
  vm_compute. reflexivity.
Defined.

Lemma map_delete_absent {V} k (m : jsmap V) : map_has k m = false -> map_delete k m = m.
Proof.
  unfold map_has. induction m as [|[k' v'] t IH]; simpl; [reflexivity|].
  destruct (String.eqb_spec k' k) as [->|Hne]; simpl; [discriminate|].
  intros H. now rewrite IH.
Qed.

Lemma map_set_same {V} k v (m : jsmap V) : map_get k m = Some v -> map_set k v m = m.
Proof.
  induction m as [|[k' v'] t IH]; simpl; [discriminate|].
  destruct (String.eqb_spec k' k) as [->|Hne].
  - now intros [= ->].
  - intros H. now rewrite IH.
Qed.

Lemma set_users_same r : set_users r (users r) = r.
Proof. now destruct r. Qed.

(** One turn of the loop of [disconnect] does to the registry what
    [leave_room] does. *)
Lemma disconnect_loop_step sid roomId keys rooms :
  hosts_are_members rooms ->
  fst (disconnect_loop sid (roomId :: keys) rooms)
  = fst (disconnect_loop sid keys (fst (leave_room sid roomId rooms))).
Proof.
  intros Hinv. cbn [disconnect_loop]. unfold leave_room.
  destruct (map_get roomId rooms) as [r|] eqn:Hget; [|reflexivity].
  destruct (map_has sid (users r)) eqn:Hmem; cbn [negb].
  - destruct (String.eqb (hostId _) sid).
    + destruct (firstKey _) as [next|]; [|reflexivity]. cbn [fst].
      match goal with |- context [disconnect_loop sid keys ?rs] =>
        destruct (disconnect_loop sid keys rs) as [rs' out'] end.
      reflexivity.
    + cbn [fst].
      match goal with |- context [disconnect_loop sid keys ?rs] =>
        destruct (disconnect_loop sid keys rs) as [rs' out'] end.
      reflexivity.
  - rewrite (map_delete_absent _ _ Hmem), set_users_same.
    pose proof (hosts_get _ _ _ Hinv Hget) as Hhost. unfold host_is_member in Hhost.
    destruct (String.eqb_spec (hostId r) sid) as [Heq|_]; [congruence|].
    cbn [fst]. now rewrite (map_set_same _ _ _ Hget).
Qed.

(** X5. On a registry where every host is a user of its room, [disconnect]
    leaves the registry that [leave_room] leaves when it is run for every
    room code in turn. *)
Theorem disconnect_as_leave_room (sid : string) (rooms : registry) :
  hosts_are_members rooms ->
  fst (disconnect sid rooms) = leave_each sid (map_keys rooms) rooms.
Proof.
  unfold disconnect, leave_each. generalize (map_keys rooms) as keys.
  intros keys. revert rooms.
  induction keys as [|roomId keys IH]; intros rooms Hinv; [reflexivity|].
  rewrite disconnect_loop_step by exact Hinv. cbn [fold_left].
  apply IH. now apply leave_room_hosts.
Qed.

Lemma disconnect_as_leave_room_witness :
  fst (disconnect "B" demo_two_rooms)
  = fst (leave_room "B" "MNPQRS" (fst (leave_room "B" "ADGKPS" demo_two_rooms))).
Proof.
  apply (disconnect_as_leave_room "B" demo_two_rooms).
  intros k r [[= <- <-]|[[= <- <-]|[]]]; reflexivity.
Defined.

(** ** [leave_room], [join_room] and [create_room] *)

(** X6. [leave_room] on a room that exists and whose host is one of its
    users: the caller is no user of what is left of the room; the room is
    deleted exactly when the host leaves and no user with a truthy id stays,
    which is the case when the caller was its last user; a room that stays
    keeps its counter, lock and pending winner, has a host among its users,
    the same one unless the host left; the other rooms are left as they
    were. *)
Theorem leave_room_effect (sid roomId : string) (rooms : registry) (r : room) :
  map_get roomId rooms = Some r ->
  host_is_member r ->
  let rooms' := fst (leave_room sid roomId rooms) in
  let left := set_users r (map_delete sid (users r)) in
  (forall r', map_get roomId rooms' = Some r' ->
     users r' = map_delete sid (users r) /\ map_has sid (users r') = false /\
     host_is_member r' /\ (hostId r <> sid -> hostId r' = hostId r) /\
     spins r' = spins r /\ lockUntil r' = lockUntil r /\
     pendingHostId r' = pendingHostId r) /\
  (map_get roomId rooms' = None <-> hostId r = sid /\ firstKey left = None) /\
  (map_delete sid (users r) = [] -> map_get roomId rooms' = None) /\
  (forall k, k <> roomId -> map_get k rooms' = map_get k rooms).
Proof.
  intros Hget Hhost rooms' left. subst rooms'. unfold leave_room. rewrite Hget.
  fold left. change (hostId left) with (hostId r).
  assert (Hlast : map_delete sid (users r) = [] -> hostId r = sid /\ firstKey left = None).
  { intros Hnil. split; [|unfold firstKey, left; simpl; now rewrite Hnil].
    destruct (String.eqb_spec (hostId r) sid) as [Heq|Hne]; [exact Heq|].
    pose proof (host_after_delete r sid Hhost Hne) as H.
    unfold host_is_member, map_has in H. simpl in H. rewrite Hnil in H. discriminate. }
  destruct (String.eqb_spec (hostId r) sid) as [Heq|Hne].
  - destruct (firstKey left) as [next|] eqn:Hfirst; cbn [fst].
    + split; [|split; [|split]].
      * intros r'. rewrite map_get_set_same. intros [= <-]. simpl.
        split; [reflexivity|]. split; [apply map_has_delete_same|].
        split; [now apply (host_after_promotion left)|].
        split; [intros Hne; contradiction | auto].
      * rewrite map_get_set_same. split; [discriminate | intros [_ H]; discriminate].
      * intros Hnil. destruct (Hlast Hnil) as [_ H]. congruence.
      * intros k Hk. now apply map_get_set_other.
    + split; [|split; [|split]].
      * intros r'. now rewrite map_get_delete_same.
      * rewrite map_get_delete_same. tauto.
      * intros _. apply map_get_delete_same.
      * intros k Hk. now apply map_get_delete_other.
  - cbn [fst]. split; [|split; [|split]].
    + intros r'. rewrite map_get_set_same. intros [= <-]. simpl.
      split; [reflexivity|]. split; [apply map_has_delete_same|].
      split; [now apply host_after_delete | auto].
    + rewrite map_get_set_same. split; [discriminate | intros [H _]; contradiction].
    + intros Hnil. destruct (Hlast Hnil) as [H _]. contradiction.
    + intros k Hk. now apply map_get_set_other.
Qed.

Lemma leave_room_effect_witness :
  map_get "MNPQRS" (fst (leave_room "B" "MNPQRS" demo_two_rooms)) = None /\
  map_get "ADGKPS" (fst (leave_room "B" "MNPQRS" demo_two_rooms))
  = map_get "ADGKPS" demo_two_rooms.
Proof.
  destruct (leave_room_effect "B" "MNPQRS" demo_two_rooms
              (mkRoom [("B", mkUser "B" "Bea" 7)] "B" 0 None None)
              eq_refl eq_refl) as (_ & _ & Hlast & Hothers).
  split; [apply Hlast; reflexivity | apply Hothers; discriminate].
Defined.

Lemma map_keys_set {V} k v (m : jsmap V) :
  map_keys (map_set k v m)
  = if map_has k m then map_keys m else (map_keys m ++ [k])%list.
Proof.
  unfold map_has. induction m as [|[k' v'] t IH]; simpl; [reflexivity|].
  destruct (String.eqb_spec k' k) as [->|Hne]; simpl; [reflexivity|].
  rewrite IH. now destruct (map_get k t).
Qed.

(** X7. [join_room] on a code that is no room changes nothing and answers
    ROOM_NOT_FOUND with a [join_error] to the caller. On a room that exists,
    the caller becomes a user under the resolved name with [now] as join
    time: a newcomer goes last in the order of insertion, a user who joins
    again keeps its place (and gets the new join time); the other users, the
    host, the counter, the lock and the pending winner of the room, and the
    other rooms, are left as they were. *)
Theorem join_room_effect
    (sid roomId : string) (raw : option string) (now : Z) (rnd : Q)
    (rooms : registry) :
  (map_get roomId rooms = None ->
   join_room sid roomId raw now rnd rooms
   = (rooms, [Ack AckNotFound; Emit (ToSocket sid) (JoinError "Room not found")])) /\
  (forall r, map_get roomId rooms = Some r ->
     let rooms' := fst (join_room sid roomId raw now rnd rooms) in
     exists r',
       map_get roomId rooms' = Some r' /\
       map_get sid (users r')
       = Some (mkUser sid (uniqueName r (sanitizeName rnd raw)) now) /\
       (forall k, k <> sid -> map_get k (users r') = map_get k (users r)) /\
       map_keys (users r')
       = (if map_has sid (users r) then map_keys (users r)
          else (map_keys (users r) ++ [sid])%list) /\
       hostId r' = hostId r /\ spins r' = spins r /\
       lockUntil r' = lockUntil r /\ pendingHostId r' = pendingHostId r /\
       (forall k, k <> roomId -> map_get k rooms' = map_get k rooms)).
Proof.
  unfold join_room. split.
  - intros Hget. now rewrite Hget.
  - intros r Hget. rewrite Hget. cbn [fst].
    eexists. split; [apply map_get_set_same|]. simpl.
    split; [apply map_get_set_same|].
    split; [intros k Hk; now apply map_get_set_other|].
    split; [apply map_keys_set|].
    repeat (split; [reflexivity|]).
    intros k Hk. now apply map_get_set_other.
Qed.

Lemma join_room_effect_witness :
  exists r',
    map_get "ADGKPS" (fst (join_room "A" "ADGKPS" (Some "Al") 9 0 demo_two_rooms))
    = Some r' /\
    map_keys (users r') = ["A"; "B"] /\
    map_get "A" (users r') = Some (mkUser "A" "Al" 9).
Proof.
  destruct (proj2 (join_room_effect "A" "ADGKPS" (Some "Al") 9 0 demo_two_rooms)
              (mkRoom [("A", mkUser "A" "Alex" 5); ("B", mkUser "B" "alex 2" 6)]
                      "A" 1 (Some 5450) (Some "B")) eq_refl)
    as (r' & Hget & Hu & _ & Hkeys & _).
  exists r'. split; [exact Hget|]. split; [exact Hkeys | exact Hu].
Defined.

Lemma map_has_get_none {V} k (m : jsmap V) : map_has k m = false -> map_get k m = None.
Proof. unfold map_has. now destruct (map_get k m). Qed.

(** X8. A [create_room] that returns, on draws of [Math.random()] in
    [[0, 1)], makes a room under a code of six symbols of the alphabet that
    was the code of no room: the caller is its host and its only user, under
    the sanitized name as it is, the counter is 0 and there is no lock; the
    rooms that were there are left as they were; the caller joins the
    broadcast group, gets the code back and the state of the room goes
    out. *)
Theorem create_room_effect
    (sid : string) (raw : option string) (now : Z) (fuel : nat) (rnd : nat -> Q)
    (rooms rooms' : registry) (out : list output) :
  (forall k, (0 <= rnd k < 1)%Q) ->
  create_room sid raw now fuel rnd rooms = Some (rooms', out) ->
  exists roomId pos,
    let r := mkRoom [(sid, mkUser sid (sanitizeName (rnd pos) raw) now)]
                    sid 0 None None in
    String.length roomId = 6%nat /\
    Forall (fun c => In c (list_ascii_of_string alphabet))
           (list_ascii_of_string roomId) /\
    map_get roomId rooms = None /\
    map_get roomId rooms' = Some r /\
    (forall k, k <> roomId -> map_get k rooms' = map_get k rooms) /\
    out = [SocketJoin sid roomId; Ack (AckRoom roomId);
           Emit (ToRoom roomId) (roomState roomId r)].
Proof.
  intros Hrnd. unfold create_room.
  destruct (genCode fuel rnd 0 rooms) as [[roomId pos]|] eqn:Hcode; [|discriminate].
  destruct (genCode_spec rnd rooms fuel 0%nat roomId pos Hrnd Hcode)
    as (Hlen & Hsym & Hfree & _).
  intros [= <- <-]. exists roomId, pos. cbn zeta.
  split; [exact Hlen|]. split; [exact Hsym|].
  split; [now apply map_has_get_none|].
  split; [apply map_get_set_same|].
  split; [intros k Hk; now apply map_get_set_other|].
  now rewrite emitState_set.
Qed.

Lemma demo_coin_range k : (0 <= demo_coin k < 1)%Q.
Proof. unfold demo_coin. destruct (Nat.even k); split; easy. Qed.

Lemma create_room_effect_witness :
  exists roomId pos,
    String.length roomId = 6%nat /\
    map_get roomId demo_two_rooms = None /\
    map_get roomId (fst demo_third_room)
    = Some (mkRoom [("C", mkUser "C" (sanitizeName (demo_coin pos) (Some "Cy")) 8)]
                   "C" 0 None None).
Proof.
  destruct (create_room_effect "C" (Some "Cy") 8 1 demo_coin demo_two_rooms
              (fst demo_third_room) (snd demo_third_room) demo_coin_range)
    as (roomId & pos & Hlen & _ & Hfree & Hget & _).
  - vm_compute. reflexivity.
  - exists roomId, pos. split; [exact Hlen|]. split; [exact Hfree | exact Hget].
Defined.

(** ** [genCode] *)

(** X9. A code that [genCode] returns, on draws of [Math.random()] in
    [[0, 1)], has six symbols, all of the alphabet, and is the code of no
    room of the registry; six draws were made for it and for every attempt
    before it, each of which gave the code of a room. *)
Theorem genCode_fresh_code
    (rnd : nat -> Q) (rooms : registry) (fuel pos : nat) (code : string) (pos' : nat) :
  (forall k, (0 <= rnd k < 1)%Q) ->
  genCode fuel rnd pos rooms = Some (code, pos') ->
  String.length code = 6%nat /\
  Forall (fun c => In c (list_ascii_of_string alphabet)) (list_ascii_of_string code) /\
  map_get code rooms = None /\
  exists tries, pos' = (pos + 6 * S tries)%nat /\ code = attempt rnd pos tries /\
    forall t, (t < tries)%nat -> map_has (attempt rnd pos t) rooms = true.
Proof.
  intros Hrnd Hcode.
  destruct (genCode_spec rnd rooms fuel pos code pos' Hrnd Hcode)
    as (Hlen & Hsym & Hfree & tries & _ & Hpos & Heq & Hbefore).
  split; [exact Hlen|]. split; [exact Hsym|].
  split; [now apply map_has_get_none|].
  exists tries. auto.
Qed.

Lemma genCode_fresh_code_witness :
  String.length "ASASAS" = 6%nat /\ map_get "ASASAS" demo_two_rooms = None.
Proof.
  destruct (genCode_fresh_code demo_coin demo_two_rooms 1 0 "ASASAS" 6
              demo_coin_range) as (Hlen & _ & Hfree & _).
  - vm_compute. reflexivity.
  - split; [exact Hlen | exact Hfree].
Defined.

(** X10. [genCode] returns the first attempt that is the code of no room,
    after six draws for each attempt up to it, as soon as the bound on the
    attempts lets it get there: the recursion of the source stops at the
    first code without a collision. *)
Theorem genCode_first_free (rnd : nat -> Q) (rooms : registry) (tries : nat) :
  forall fuel pos,
  (tries < fuel)%nat ->
  (forall t, (t < tries)%nat -> map_has (attempt rnd pos t) rooms = true) ->
  map_has (attempt rnd pos tries) rooms = false ->
  genCode fuel rnd pos rooms
  = Some (attempt rnd pos tries, (pos + 6 * S tries)%nat).
Proof.
  unfold attempt.
  induction tries as [|tries IH]; intros [|fuel] pos Hlt Hbefore Hfree; try lia;
    cbn [genCode].
  - rewrite Nat.mul_0_r, Nat.add_0_r in Hfree. rewrite Hfree.
    now rewrite Nat.mul_0_r, Nat.add_0_r.
  - assert (Hhit : map_has (drawCode (List.map rnd (seq (pos + 6 * 0) 6))) rooms = true)
      by (apply Hbefore; lia).
    rewrite Nat.mul_0_r, Nat.add_0_r in Hhit. rewrite Hhit.
    rewrite (IH fuel (pos + 6)%nat).
    + replace (pos + 6 + 6 * tries)%nat with (pos + 6 * S tries)%nat by lia.
      replace (pos + 6 + 6 * S tries)%nat with (pos + 6 * S (S tries))%nat by lia.
      reflexivity.
    + lia.
    + intros t Ht. rewrite <- (Hbefore (S t)) by lia.
      replace (pos + 6 + 6 * t)%nat with (pos + 6 * S t)%nat by lia. reflexivity.
    + rewrite <- Hfree.
      replace (pos + 6 + 6 * tries)%nat with (pos + 6 * S tries)%nat by lia.
      reflexivity.
Qed.

Lemma genCode_first_free_witness :
  genCode 2 demo_wheel 0 demo_two_rooms = Some ("VY36AD", 12%nat).
Proof.
  apply (genCode_first_free demo_wheel demo_two_rooms 1 2 0).
  - lia.
  - intros [|t] Ht; [vm_compute; reflexivity | lia].
  - vm_compute. reflexivity.
Defined.

(** ** [seededPick] *)

Lemma toInt32_period z k : JS.toInt32 (z + k * 2^32) = JS.toInt32 z.
Proof.
  unfold JS.toInt32. replace (z + k * 2^32 + 2^31)%Z with (z + 2^31 + k * 2^32)%Z by lia.
  now rewrite Z.mod_add by lia.
Qed.

(** X11. [seededPick] reads the low 32 bits of the seed only: two seeds that
    differ by a multiple of [2^32] pick the same index. *)
Theorem seededPick_low_bits (seed k n : Z) :
  seededPick (seed + k * 2^32) n = seededPick seed n.
Proof.
  assert (H : JS.xor (seed + k * 2^32) 0x9e3779b9 = JS.xor seed 0x9e3779b9).
  { unfold JS.xor. now rewrite toInt32_period. }
  unfold seededPick. now rewrite H.
Qed.

(** ** An accepted [spin_request], and what follows it *)

Lemma turns_range (r : Q) : (0 <= r < 1)%Q -> (4 <= 4 + JS.floor (r * 2) <= 5)%Z.
Proof.
  intros [H0 H1]. unfold JS.floor.
  assert (Hlo : (0 <= Qfloor (r * 2))%Z).
  { rewrite <- (Qfloor_Z 0). apply Qfloor_resp_le.
    apply Qmult_le_0_compat; [exact H0 | discriminate]. }
  assert (Hhi : (inject_Z (Qfloor (r * 2)) < inject_Z 2)%Q).
  { eapply Qle_lt_trans; [apply Qfloor_le|].
    change (inject_Z 2) with (1 * 2)%Q.
    apply Qmult_lt_compat_r; [reflexivity | exact H1]. }
  rewrite <- Zlt_Qlt in Hhi. lia.
Qed.

Lemma duration_range (r : Q) :
  (0 <= r < 1)%Q -> (3400 <= 3400 + JS.floor (r * 400) <= 3799)%Z.
Proof.
  intros [H0 H1]. unfold JS.floor.
  assert (Hlo : (0 <= Qfloor (r * 400))%Z).
  { rewrite <- (Qfloor_Z 0). apply Qfloor_resp_le.
    apply Qmult_le_0_compat; [exact H0 | discriminate]. }
  assert (Hhi : (inject_Z (Qfloor (r * 400)) < inject_Z 400)%Q).
  { eapply Qle_lt_trans; [apply Qfloor_le|].
    change (inject_Z 400) with (1 * 400)%Q.
    apply Qmult_lt_compat_r; [reflexivity | exact H1]. }
  rewrite <- Zlt_Qlt in Hhi. lia.
Qed.

(** The registry and the outputs of a [spin_request] that goes through. *)
Lemma spin_request_accepts
    (sid roomId : string) (now seed later : Z) (rt rd : Q)
    (rooms : registry) (r : room) :
  map_get roomId rooms = Some r ->
  spin_accepted r sid now ->
  exists winner,
    nth_error (turnOrder r)
              (Z.to_nat (seededPick seed (Z.of_nat (List.length (turnOrder r)))))
    = Some winner /\
    spin_request sid roomId now seed later rt rd rooms
    = (map_set roomId
         (mkRoom (users r) (hostId r) (spins r + 1)
                 (Some (now + 600 + (3400 + JS.floor (rd * 400)) + 250))
                 (Some (id winner))) rooms,
       [Emit (ToRoom roomId)
             (SpinStart (List.map id (turnOrder r))
                        (seededPick seed (Z.of_nat (List.length (turnOrder r))))
                        (3400 + JS.floor (rd * 400)) (4 + JS.floor (rt * 2))
                        (now + 600) (id winner)
                        (now + 600 + (3400 + JS.floor (rd * 400)) + 250)
                        (spins r + 1));
        SetTimeout roomId
          (Z.max 0 (now + 600 + (3400 + JS.floor (rd * 400)) + 250 - later))]).
Proof.
  intros Hget (Hauth & Hfree & Hmany).
  assert (Hne : turnOrder r <> []).
  { intros Heq. rewrite Heq in Hmany. simpl in Hmany. lia. }
  destruct (seededPick_lookup seed (turnOrder r) Hne) as [winner Hw].
  exists winner. split; [exact Hw|].
  unfold spin_request. rewrite Hget, (authorized_dec _ _ _ Hauth), Hfree.
  destruct (Z.ltb_spec (Z.of_nat (List.length (turnOrder r))) 2); [lia|].
  now rewrite Hw.
Qed.

(** X12. A [spin_request] that goes through, on draws of [Math.random()] in
    [[0, 1)]: the room keeps its users and its host, its counter goes up by
    one, the lock is set between 4250 and 4649 ms after [now] (600 of grace,
    3400 to 3799 of animation, 250 of buffer), the winner is a user of the
    turn order and is the pending host; one [spin_start] goes to the room,
    with 4 or 5 turns, and one callback is scheduled with a delay that is
    not negative. *)
Theorem spin_timing
    (sid roomId : string) (now seed later : Z) (rt rd : Q)
    (rooms : registry) (r : room) :
  map_get roomId rooms = Some r ->
  spin_accepted r sid now ->
  (0 <= rt < 1)%Q -> (0 <= rd < 1)%Q ->
  exists winner targetIndex durationMs turns delay,
    In winner (turnOrder r) /\
    (3400 <= durationMs <= 3799)%Z /\ (4 <= turns <= 5)%Z /\ (0 <= delay)%Z /\
    (now + 4250 <= now + 600 + durationMs + 250 <= now + 4649)%Z /\
    spin_request sid roomId now seed later rt rd rooms
    = (map_set roomId
         (mkRoom (users r) (hostId r) (spins r + 1)
                 (Some (now + 600 + durationMs + 250)) (Some (id winner))) rooms,
       [Emit (ToRoom roomId)
             (SpinStart (List.map id (turnOrder r)) targetIndex durationMs turns
                        (now + 600) (id winner) (now + 600 + durationMs + 250)
                        (spins r + 1));
        SetTimeout roomId delay]).
Proof.
  intros Hget Hacc Hrt Hrd.
  destruct (spin_request_accepts sid roomId now seed later rt rd rooms r Hget Hacc)
    as (winner & Hw & Hrun).
  pose proof (duration_range rd Hrd) as Hd. pose proof (turns_range rt Hrt) as Ht.
  eexists winner, _, _, _, _.
  split; [eapply nth_error_In; eauto|].
  split; [exact Hd|]. split; [exact Ht|].
  split; [apply Z.le_max_l|]. split; [lia | exact Hrun].
Qed.

Lemma demo_joined_room_get :
  map_get "ADGKPS" (w_rooms demo_joined)
  = Some (mkRoom [("A", mkUser "A" "Alex" 5); ("B", mkUser "B" "alex 2" 6)]
                 "A" 0 None None).
Proof. vm_compute. reflexivity. Qed.

Lemma demo_joined_accepts :
  spin_accepted (mkRoom [("A", mkUser "A" "Alex" 5); ("B", mkUser "B" "alex 2" 6)]
                        "A" 0 None None) "A" 1000.
Proof. split; [left; reflexivity|]. split; [reflexivity | simpl; lia]. Qed.

Lemma half_in_range : (0 <= 1#2 < 1)%Q.
Proof. split; [discriminate | reflexivity]. Qed.

Lemma spin_timing_witness :
  exists durationMs turns,
    (3400 <= durationMs <= 3799)%Z /\ (4 <= turns <= 5)%Z /\
    exists rooms' winner targetIndex delay,
      spin_request "A" "ADGKPS" 1000 1000 1000 (1#2) (1#2) (w_rooms demo_joined)
      = (rooms',
         [Emit (ToRoom "ADGKPS")
               (SpinStart ["A"; "B"] targetIndex durationMs turns 1600 winner
                          (1600 + durationMs + 250) 1);
          SetTimeout "ADGKPS" delay]).
Proof.
  destruct (spin_timing "A" "ADGKPS" 1000 1000 1000 (1#2) (1#2) (w_rooms demo_joined)
              _ demo_joined_room_get demo_joined_accepts half_in_range half_in_range)
    as (winner & idx & d & t & delay & _ & Hd & Ht & _ & _ & Hrun).
  exists d, t. split; [exact Hd|]. split; [exact Ht|].
  eexists _, (id winner), idx, delay. exact Hrun.
Defined.

Lemma map_set_set {V} k v v' (m : jsmap V) :
  map_set k v' (map_set k v m) = map_set k v' m.
Proof.
  induction m as [|[k0 v0] t IH]; simpl.
  - now rewrite String.eqb_refl.
  - destruct (String.eqb_spec k0 k) as [->|Hne]; simpl.
    + now rewrite String.eqb_refl.
    + destruct (String.eqb_spec k0 k); [contradiction | now rewrite IH].
Qed.

Lemma In_map_has {V} k v (m : jsmap V) : In (k, v) m -> map_has k m = true.
Proof.
  unfold map_has. induction m as [|[k0 v0] t IH]; simpl; [contradiction|].
  destruct (String.eqb_spec k0 k) as [->|Hne]; [reflexivity|].
  intros [[= -> _]|Hin]; [contradiction | now apply IH].
Qed.

Lemma In_firstn {A} n (l : list A) x : In x (firstn n l) -> In x l.
Proof.
  revert l. induction n as [|n IH]; intros [|a l]; simpl; try contradiction.
  intros [->|Hin]; [now left | right; now apply IH].
Qed.

(** A user of the turn order is a user of the room. *)
Lemma turnOrder_member r u :
  keys_match_ids r -> In u (turnOrder r) -> map_has (id u) (users r) = true.
Proof.
  intros Hkeys Hin. unfold turnOrder in Hin. apply In_firstn in Hin.
  apply (Permutation_in _ (sortByJoin_perm _)) in Hin.
  unfold map_values in Hin. apply in_map_iff in Hin as ([k v] & <- & Hin).
  simpl. rewrite (Hkeys k v Hin). eapply In_map_has; eauto.
Qed.

(** X13. A [spin_request] handled on the registry exactly as an accepted
    spin left it, with no other event in between, at a time [now'] from 0 on
    and less than 4250 ms after the [now] of that spin: it leaves the
    registry as it is, whoever sends it; the host is told "A spin is already
    in progress.", anybody else is told that or nothing; no [spin_start]
    goes out and no callback is scheduled. (An event in between can undo
    this: the callback of an earlier spin, when it fires late, clears the
    lock of the new one.) *)
Theorem spin_blocks_next_spin
    (sid roomId : string) (now seed later : Z) (rt rd : Q)
    (rooms : registry) (r : room)
    (sid' : string) (now' seed' later' : Z) (rt' rd' : Q) :
  map_get roomId rooms = Some r ->
  spin_accepted r sid now ->
  (0 <= rd < 1)%Q ->
  (0 <= now' < now + 4250)%Z ->
  let rooms1 := fst (spin_request sid roomId now seed later rt rd rooms) in
  let second := spin_request sid' roomId now' seed' later' rt' rd' rooms1 in
  fst second = rooms1 /\
  (snd second = [] \/ snd second = [denied sid' "A spin is already in progress."]) /\
  (sid' = hostId r -> snd second = [denied sid' "A spin is already in progress."]).
Proof.
  intros Hget Hacc Hrd Hnow'.
  destruct (spin_request_accepts sid roomId now seed later rt rd rooms r Hget Hacc)
    as (winner & _ & Hrun).
  cbv zeta. rewrite Hrun. cbn [fst]. pose proof (duration_range rd Hrd) as Hd.
  set (lock := (now + 600 + (3400 + JS.floor (rd * 400)) + 250)%Z) in *.
  set (r1 := mkRoom (users r) (hostId r) (spins r + 1) (Some lock) (Some (id winner))).
  unfold spin_request. rewrite map_get_set_same.
  assert (Hlocked : locked r1 now' = true).
  { unfold locked, r1. simpl.
    destruct (Z.eqb_spec lock 0); [lia|]. simpl. apply Z.ltb_lt. lia. }
  rewrite Hlocked.
  destruct (negb (isCurrentHost r1 sid') && negb (isPendingWinnerNowHost r1 sid' now'))
    eqn:Htest; cbn [fst snd].
  - split; [reflexivity|]. split; [now left|].
    intros ->. unfold isCurrentHost, r1 in Htest. simpl in Htest.
    now rewrite String.eqb_refl in Htest.
  - split; [reflexivity|]. split; [now right | reflexivity].
Qed.

Lemma spin_blocks_next_spin_witness :
  snd (spin_request "A" "ADGKPS" 2000 7 7 0 0
         (fst (spin_request "A" "ADGKPS" 1000 1000 1000 (1#2) (1#2)
                            (w_rooms demo_joined))))
  = [denied "A" "A spin is already in progress."].
Proof.
  apply (spin_blocks_next_spin "A" "ADGKPS" 1000 1000 1000 (1#2) (1#2)
           (w_rooms demo_joined) _ "A" 2000 7 7 0 0
           demo_joined_room_get demo_joined_accepts half_in_range);
    [lia | reflexivity].
Defined.

(** X14. When the callback of an accepted spin fires on the registry that
    the spin left, in a room whose users sit under their own ids, the winner
    that the [spin_start] named as [nextHostId] is the host, the lock and the
    pending winner are gone, the users and the counter are those of the
    spin, and the state of the room goes out. *)
Theorem spin_then_commit
    (sid roomId : string) (now seed later : Z) (rt rd : Q)
    (rooms : registry) (r : room) :
  map_get roomId rooms = Some r ->
  keys_match_ids r ->
  spin_accepted r sid now ->
  exists winner targetIndex durationMs turns delay,
    In winner (turnOrder r) /\
    snd (spin_request sid roomId now seed later rt rd rooms)
    = [Emit (ToRoom roomId)
            (SpinStart (List.map id (turnOrder r)) targetIndex durationMs turns
                       (now + 600) (id winner) (now + 600 + durationMs + 250)
                       (spins r + 1));
       SetTimeout roomId delay] /\
    let r2 := mkRoom (users r) (id winner) (spins r + 1) None None in
    spin_commit roomId (fst (spin_request sid roomId now seed later rt rd rooms))
    = (map_set roomId r2 rooms, [Emit (ToRoom roomId) (roomState roomId r2)]).
Proof.
  intros Hget Hkeys Hacc.
  destruct (spin_request_accepts sid roomId now seed later rt rd rooms r Hget Hacc)
    as (winner & Hw & Hrun).
  apply nth_error_In in Hw as Hin.
  eexists winner, _, _, _, _. split; [exact Hin|].
  rewrite Hrun. cbn [fst snd]. split; [reflexivity|].
  unfold spin_commit. rewrite map_get_set_same. cbn [users pendingHostId spins].
  rewrite (turnOrder_member r winner Hkeys Hin).
  cbv zeta. now rewrite map_set_set, emitState_set.
Qed.

Lemma spin_then_commit_witness :
  exists winner,
    spin_commit "ADGKPS" (w_rooms demo_spun)
    = (map_set "ADGKPS"
         (mkRoom [("A", mkUser "A" "Alex" 5); ("B", mkUser "B" "alex 2" 6)]
                 winner 1 None None) (w_rooms demo_joined),
       [Emit (ToRoom "ADGKPS")
             (roomState "ADGKPS"
                (mkRoom [("A", mkUser "A" "Alex" 5); ("B", mkUser "B" "alex 2" 6)]
                        winner 1 None None))]).
Proof.
  destruct (spin_then_commit "A" "ADGKPS" 1000 1000 1000 (1#2) (1#2)
              (w_rooms demo_joined) _ demo_joined_room_get)
    as (winner & _ & _ & _ & _ & _ & _ & Hcommit).
  - intros k u [[= <- <-]|[[= <- <-]|[]]]; reflexivity.
  - exact demo_joined_accepts.
  - exists (id winner). exact Hcommit.
Defined.

Lemma authorized_of_test r sid now :
  negb (isCurrentHost r sid) && negb (isPendingWinnerNowHost r sid now) = false ->
  authorized r sid now.
Proof.
  unfold authorized, isCurrentHost, isPendingWinnerNowHost.
  destruct (String.eqb_spec (hostId r) sid) as [Heq|_]; [now left|]. simpl.
  destruct (pendingHostId r) as [p|]; [|discriminate].
  destruct (String.eqb_spec p sid) as [->|_]; [|discriminate].
  destruct (finished r now); [|discriminate]. intros _. right. now split.
Qed.

(** X15. A [spin_request] either goes through or leaves the registry as it
    is. It leaves it as it is exactly when the room is missing, the caller
    may not spin, a spin is in progress or fewer than two users make the
    turn order; then it sends nothing, or one [spin_denied] to the caller
    alone. *)
Theorem spin_request_refusals
    (sid roomId : string) (now seed later : Z) (rt rd : Q) (rooms : registry) :
  let result := spin_request sid roomId now seed later rt rd rooms in
  (map_get roomId rooms = None -> result = (rooms, [])) /\
  (forall r, map_get roomId rooms = Some r ->
     (fst result = rooms <-> ~ spin_accepted r sid now) /\
     (~ spin_accepted r sid now ->
      snd result = [] \/ exists reason, snd result = [denied sid reason])).
Proof.
  intros result. subst result. split.
  - intros Hget. unfold spin_request. now rewrite Hget.
  - intros r Hget. split; [split|].
    + intros Hsame Hacc.
      destruct (spin_request_accepts sid roomId now seed later rt rd rooms r Hget Hacc)
        as (winner & _ & Hrun).
      rewrite Hrun in Hsame. cbn [fst] in Hsame.
      apply (f_equal (map_get roomId)) in Hsame.
      rewrite map_get_set_same, Hget in Hsame.
      injection Hsame as Hsame. apply (f_equal spins) in Hsame. simpl in Hsame. lia.
    + intros Hno. unfold spin_request. rewrite Hget.
      destruct (negb _ && negb _) eqn:Htest; [reflexivity|].
      destruct (locked r now) eqn:Hlock; [reflexivity|].
      destruct (Z.ltb_spec (Z.of_nat (List.length (turnOrder r))) 2); [reflexivity|].
      exfalso. apply Hno. split; [now apply authorized_of_test|]. split; [exact Hlock | lia].
    + intros Hno. unfold spin_request. rewrite Hget.
      destruct (negb _ && negb _) eqn:Htest; [now left|].
      destruct (locked r now) eqn:Hlock; [right; eexists; reflexivity|].
      destruct (Z.ltb_spec (Z.of_nat (List.length (turnOrder r))) 2);
        [right; eexists; reflexivity|].
      exfalso. apply Hno. split; [now apply authorized_of_test|]. split; [exact Hlock | lia].
Qed.

Lemma spin_request_refusals_witness :
  fst (spin_request "B" "ADGKPS" 1000 1000 1000 0 0 (w_rooms demo_joined))
  = w_rooms demo_joined.
Proof.
  apply (proj2 (spin_request_refusals "B" "ADGKPS" 1000 1000 1000 0 0
                  (w_rooms demo_joined)) _ demo_joined_room_get).
  intros [[H | [H _]] _]; discriminate H.
Defined.

(** ** Names *)

Lemma suffix_digits i :
  (2 <= i <= 98)%nat -> (String.length (JS.numToString (Z.of_nat i)) <= 2)%nat.
Proof.
  intros Hi.
  assert (Hall : forallb (fun k => Nat.leb (String.length (JS.numToString (Z.of_nat k))) 2)
                         (seq 2 97) = true) by (vm_compute; reflexivity).
  rewrite forallb_forall in Hall. apply Nat.leb_le, Hall, in_seq. lia.
Qed.

(** X16. The name that [uniqueName] returns is the base name followed by a
    suffix of at most three code units (none, " 2" to " 98", or " *"). The
    suffix is empty exactly when no user of the room has the base name, case
    apart; and unless it is " *", no user of the room has the name returned,
    case apart. *)
Theorem uniqueName_shape (r : room) (baseName : string) :
  exists suffix,
    uniqueName r baseName = baseName ++ suffix /\
    (String.length suffix <= 3)%nat /\
    (suffix = EmptyString <-> ~ In (JS.toLowerCase baseName) (takenNames r)) /\
    (suffix <> " *" ->
     ~ In (JS.toLowerCase (uniqueName r baseName)) (takenNames r)).
Proof.
  destruct (in_dec string_dec (JS.toLowerCase baseName) (takenNames r)) as [Hin|Hfree].
  - destruct (uniqueName_taken r baseName Hin)
      as [(i & Hi & Heq & Hnew & _) | [Heq _]]; rewrite Heq.
    + exists (" " ++ JS.numToString (Z.of_nat i)). split; [reflexivity|].
      split; [pose proof (suffix_digits i Hi); simpl; lia|].
      split; [split; [discriminate | contradiction] | intros _; exact Hnew].
    + exists " *". split; [reflexivity|]. split; [simpl; lia|].
      split; [split; [discriminate | contradiction] | contradiction].
  - rewrite (uniqueName_free r baseName Hfree). exists EmptyString.
    split; [now rewrite append_nil_r|]. split; [simpl; lia|].
    split; [tauto | intros _; exact Hfree].
Qed.

Lemma uniqueName_shape_witness :
  exists suffix, uniqueName demo_solo "ALEX" = "ALEX" ++ suffix /\
                 suffix <> EmptyString.
Proof.
  destruct (uniqueName_shape demo_solo "ALEX") as (suffix & Heq & _ & Hempty & _).
  exists suffix. split; [exact Heq|]. intros H. apply Hempty in H. apply H.
  left. reflexivity.
Defined.

Lemma toLowerCase_append s t :
  JS.toLowerCase (s ++ t) = JS.toLowerCase s ++ JS.toLowerCase t.
Proof. induction s as [|c s IH]; simpl; [reflexivity | now rewrite IH]. Qed.

Lemma append_cancel_l s x y : s ++ x = s ++ y -> x = y.
Proof. induction s as [|c s IH]; simpl; [auto | intros [= H]; auto]. Qed.

(** The suffixes " 2", ..., " 98" in lower case differ from one another. *)
Lemma suffixes_differ i j :
  (2 <= i <= 98)%nat -> (2 <= j <= 98)%nat ->
  JS.toLowerCase (" " ++ JS.numToString (Z.of_nat i))
  = JS.toLowerCase (" " ++ JS.numToString (Z.of_nat j)) -> i = j.
Proof.
  intros Hi Hj Heq.
  assert (Hall : forallb (fun a => forallb (fun b =>
              implb (String.eqb (JS.toLowerCase (" " ++ JS.numToString (Z.of_nat a)))
                                (JS.toLowerCase (" " ++ JS.numToString (Z.of_nat b))))
                    (Nat.eqb a b)) (seq 2 97)) (seq 2 97) = true)
    by (vm_compute; reflexivity).
  rewrite forallb_forall in Hall.
  specialize (Hall i ltac:(apply in_seq; lia)).
  rewrite forallb_forall in Hall.
  specialize (Hall j ltac:(apply in_seq; lia)).
  rewrite Heq, String.eqb_refl in Hall. simpl in Hall. now apply Nat.eqb_eq.
Qed.

Lemma candidate_lower baseName i :
  JS.toLowerCase (candidate baseName i)
  = JS.toLowerCase baseName ++ JS.toLowerCase (" " ++ JS.numToString (Z.of_nat i)).
Proof. unfold candidate. apply toLowerCase_append. Qed.

Lemma NoDup_map_on {A B} (f : A -> B) (l : list A) :
  (forall x y, In x l -> In y l -> f x = f y -> x = y) -> NoDup l -> NoDup (List.map f l).
Proof.
  intros Hinj Hnd. induction Hnd as [|a l Hnotin Hnd IH]; simpl; constructor.
  - rewrite in_map_iff. intros (y & Heq & Hy).
    apply Hinj in Heq; [subst; contradiction | now right | now left].
  - apply IH. intros x y Hx Hy. apply Hinj; now right.
Qed.

(** X17. In a room of at most 97 users [uniqueName] never runs out of
    candidates: the name it returns is the name of no user of the room, case
    apart. (With the base name and the suffixes " 2" to " 98" there are 98
    names to choose from.) *)
Theorem uniqueName_fresh (r : room) (baseName : string) :
  (List.length (users r) <= 97)%nat ->
  ~ In (JS.toLowerCase (uniqueName r baseName)) (takenNames r).
Proof.
  intros Hsize.
  destruct (in_dec string_dec (JS.toLowerCase baseName) (takenNames r)) as [Hin|Hfree];
    [|now rewrite uniqueName_free].
  destruct (uniqueName_taken r baseName Hin)
    as [(i & Hi & Heq & Hnew & _) | [_ Hall]]; [now rewrite Heq|].
  exfalso.
  set (names := JS.toLowerCase baseName
                :: List.map (fun j => JS.toLowerCase (candidate baseName j)) (seq 2 97)).
  assert (Hnd : NoDup names).
  { constructor.
    - rewrite in_map_iff. intros (j & Heq & _). rewrite candidate_lower in Heq.
      apply (f_equal String.length) in Heq. rewrite length_append in Heq.
      simpl in Heq. lia.
    - apply NoDup_map_on; [|apply seq_NoDup].
      intros x y Hx Hy Heq. apply in_seq in Hx, Hy.
      rewrite !candidate_lower in Heq. apply append_cancel_l in Heq.
      apply suffixes_differ; [lia | lia | exact Heq]. }
  assert (Hincl : incl names (takenNames r)).
  { intros x [<-|Hx]; [exact Hin|].
    apply in_map_iff in Hx as (j & <- & Hj). apply in_seq in Hj. apply Hall. lia. }
  pose proof (NoDup_incl_length Hnd Hincl) as Hlen.
  assert (H98 : List.length names = 98%nat).
  { unfold names. cbn [List.length]. now rewrite length_map, length_seq. }
  assert (Htaken : List.length (takenNames r) = List.length (users r)).
  { unfold takenNames, map_values. now rewrite !length_map. }
  lia.
Qed.

Lemma uniqueName_fresh_witness :
  ~ In (JS.toLowerCase (uniqueName demo_solo "ALEX")) (takenNames demo_solo).
Proof. apply (uniqueName_fresh demo_solo "ALEX"). simpl. lia. Defined.

(** ** [set_name] and the turn order *)

Lemma same_seat_refl l : Forall2 same_seat l l.
Proof. induction l; constructor; [split; reflexivity | assumption]. Qed.

Lemma map_set_same_seat sid u u' (m : jsmap user) :
  map_get sid m = Some u -> same_seat u u' ->
  Forall2 same_seat (map_values m) (map_values (map_set sid u' m)).
Proof.
  intros Hget Hseat. induction m as [|[k v] t IH]; simpl in *; [discriminate|].
  destruct (String.eqb_spec k sid) as [->|Hne]; simpl.
  - injection Hget as ->. constructor; [exact Hseat | apply same_seat_refl].
  - constructor; [split; reflexivity | now apply IH].
Qed.

Lemma insertByJoin_same_seat a b l l' :
  same_seat a b -> Forall2 same_seat l l' ->
  Forall2 same_seat (insertByJoin a l) (insertByJoin b l').
Proof.
  intros Hab Hll. induction Hll as [|x y l l' Hxy Hll IH]; simpl.
  - constructor; [exact Hab | constructor].
  - destruct Hab as [Hid Hjoin]. destruct Hxy as [Hid' Hjoin'].
    rewrite <- Hjoin, <- Hjoin'.
    destruct (joinedAt a <=? joinedAt x)%Z; repeat constructor; auto.
Qed.

Lemma sortByJoin_same_seat l l' :
  Forall2 same_seat l l' -> Forall2 same_seat (sortByJoin l) (sortByJoin l').
Proof.
  induction 1; simpl; [constructor | now apply insertByJoin_same_seat].
Qed.

Lemma firstn_same_seat n l l' :
  Forall2 same_seat l l' -> Forall2 same_seat (firstn n l) (firstn n l').
Proof.
  intros H. revert n. induction H; intros [|n]; simpl; constructor; auto.
Qed.

Lemma same_seat_ids l l' : Forall2 same_seat l l' -> List.map id l = List.map id l'.
Proof.
  induction 1 as [|x y l l' [Hid _] _ IH]; simpl; [reflexivity | now rewrite Hid, IH].
Qed.

(** X18. A [set_name] that goes through changes a name and nothing else: the
    caller keeps its id and its join time, the other users their records,
    the keys of [users] their order, the turn order its ids, the room its
    host, counter, lock and pending winner, and the other rooms are left as
    they were. *)
Theorem set_name_keeps_order
    (sid roomId : string) (raw : option string) (rnd : Q)
    (rooms : registry) (r : room) (u : user) :
  map_get roomId rooms = Some r ->
  map_get sid (users r) = Some u ->
  let rooms' := fst (set_name sid roomId raw rnd rooms) in
  exists r',
    map_get roomId rooms' = Some r' /\
    map_get sid (users r')
    = Some (mkUser (id u) (uniqueName r (sanitizeName rnd raw)) (joinedAt u)) /\
    (forall k, k <> sid -> map_get k (users r') = map_get k (users r)) /\
    map_keys (users r') = map_keys (users r) /\
    List.map id (turnOrder r') = List.map id (turnOrder r) /\
    hostId r' = hostId r /\ spins r' = spins r /\
    lockUntil r' = lockUntil r /\ pendingHostId r' = pendingHostId r /\
    (forall k, k <> roomId -> map_get k rooms' = map_get k rooms).
Proof.
  intros Hroom Huser. unfold set_name. rewrite Hroom, Huser. cbn [fst].
  eexists. split; [apply map_get_set_same|].
  unfold turnOrder.
  cbn [users hostId spins lockUntil pendingHostId set_users].
  split; [apply map_get_set_same|].
  split; [intros k Hk; now apply map_get_set_other|].
  split.
  { rewrite map_keys_set. unfold map_has. now rewrite Huser. }
  split.
  { symmetry. apply same_seat_ids.
    apply firstn_same_seat, sortByJoin_same_seat.
    apply (map_set_same_seat sid u); [exact Huser | split; reflexivity]. }
  repeat (split; [reflexivity|]).
  intros k Hk. now apply map_get_set_other.
Qed.

Lemma set_name_keeps_order_witness :
  exists r',
    map_get "ADGKPS" (fst (set_name "B" "ADGKPS" (Some "Bea") 0 demo_two_rooms))
    = Some r' /\
    List.map id (turnOrder r') = ["A"; "B"] /\
    map_get "B" (users r') = Some (mkUser "B" "Bea" 6).
Proof.
  destruct (set_name_keeps_order "B" "ADGKPS" (Some "Bea") 0 demo_two_rooms
              (mkRoom [("A", mkUser "A" "Alex" 5); ("B", mkUser "B" "alex 2" 6)]
                      "A" 1 (Some 5450) (Some "B"))
              (mkUser "B" "alex 2" 6) eq_refl eq_refl)
    as (r' & Hget & Hu & _ & _ & Horder & _).
  exists r'. split; [exact Hget|]. split; [exact Horder | exact Hu].
Defined.

(** ** What [emitState] sends *)

(** X19. [emitState] sends nothing for a code that is no room. For a room
    it sends one [room_state] to the room, with all the users of the room,
    each once, in the order of their join times (the order of insertion when
    that order follows the join times already), the host, the counter, and
    the lock unless it is falsy. *)
Theorem emitState_snapshot (roomId : string) (rooms : registry) :
  (map_get roomId rooms = None -> emitState roomId rooms = []) /\
  (forall r, map_get roomId rooms = Some r ->
     exists members,
       emitState roomId rooms
       = [Emit (ToRoom roomId)
               (RoomState roomId members (hostId r) (spins r)
                          (if JS.truthyNum (lockUntil r) then lockUntil r else None))] /\
       byJoinTime members /\
       Permutation members (map_values (users r)) /\
       (byJoinTime (map_values (users r)) -> members = map_values (users r))).
Proof.
  unfold emitState. split.
  - intros Hget. now rewrite Hget.
  - intros r Hget. rewrite Hget. exists (sortByJoin (map_values (users r))).
    split; [reflexivity|]. split; [apply sortByJoin_sorted|].
    split; [apply sortByJoin_perm | apply sortByJoin_id].
Qed.

Lemma emitState_snapshot_witness :
  exists members,
    emitState "ADGKPS" demo_two_rooms
    = [Emit (ToRoom "ADGKPS") (RoomState "ADGKPS" members "A" 1 (Some 5450%Z))] /\
    members = [mkUser "A" "Alex" 5; mkUser "B" "alex 2" 6].
Proof.
  destruct (proj2 (emitState_snapshot "ADGKPS" demo_two_rooms) _ eq_refl)
    as (members & Hsend & _ & _ & Hsame).
  exists members. split; [exact Hsend|]. apply Hsame.
  repeat constructor. simpl. lia.
Defined.

(** ** The white space of a sanitized name *)

Lemma single_spaced_prefix s t : forall b,
  single_spaced_from b (s ++ t) = true -> single_spaced_from b s = true.
Proof.
  induction s as [|c s IH]; intros b; simpl; [reflexivity|].
  destruct (JS.isWhiteSpace c); [|apply IH].
  rewrite !andb_true_iff. intros [[Hb Hc] Hrest]. auto.
Qed.

Lemma single_spaced_word w : no_white w = true -> forall b rest,
  single_spaced_from b (w ++ rest)
  = single_spaced_from (match w with EmptyString => b | _ => false end) rest.
Proof.
  induction w as [|c w IH]; simpl; [reflexivity|].
  rewrite andb_true_iff, negb_true_iff. intros [Hc Hw] b rest.
  rewrite Hc, (IH Hw). now destruct w.
Qed.

Lemma no_white_snoc s c :
  no_white s = true -> JS.isWhiteSpace c = false -> no_white (s ++ String c EmptyString) = true.
Proof.
  intros Hs Hc. induction s as [|a s IH]; simpl in *; [now rewrite Hc|].
  apply andb_true_iff in Hs as [Ha Hs]. now rewrite Ha, IH.
Qed.

Lemma wordsFrom_no_white s : forall cur,
  no_white cur = true -> Forall (fun w => no_white w = true) (wordsFrom cur s).
Proof.
  induction s as [|c t IH]; intros cur Hcur; simpl.
  - destruct (String.eqb cur EmptyString); repeat constructor; assumption.
  - destruct (JS.isWhiteSpace c) eqn:Hc.
    + destruct (String.eqb cur EmptyString); [now apply IH|].
      constructor; [assumption | now apply IH].
    + apply IH. now apply no_white_snoc.
Qed.

Lemma concat_single_spaced ws :
  Forall (fun w => no_white w = true) ws -> Forall (fun w => w <> EmptyString) ws ->
  single_spaced_from true (String.concat " " ws) = true.
Proof.
  induction ws as [|w ws IH]; intros Hwhite Hfull; [reflexivity|].
  apply Forall_cons_iff in Hwhite as [Hw Hwhite].
  apply Forall_cons_iff in Hfull as [Hne Hfull].
  destruct ws as [|w2 ws].
  - simpl. rewrite <- (append_nil_r w), (single_spaced_word w Hw). now destruct w.
  - change (String.concat " " (w :: w2 :: ws))
      with (w ++ String " " (String.concat " " (w2 :: ws))).
    rewrite (single_spaced_word w Hw).
    destruct w as [|a b]; [contradiction|].
    change (single_spaced_from false (String " " (String.concat " " (w2 :: ws))))
      with (single_spaced_from true (String.concat " " (w2 :: ws))).
    now apply IH.
Qed.

Lemma normalizeSpec_single_spaced s : single_spaced (normalizeSpec s) = true.
Proof.
  unfold single_spaced, normalizeSpec, words. apply concat_single_spaced.
  - now apply wordsFrom_no_white.
  - apply wordsFrom_words_nonempty.
Qed.

Lemma placeholder_single_spaced n :
  (100 <= n <= 999)%Z -> single_spaced ("Player " ++ JS.numToString n) = true.
Proof.
  intros Hn.
  assert (Hall : forallb (fun k => single_spaced
                            ("Player " ++ JS.numToString (100 + Z.of_nat k)))
                         (seq 0 900) = true) by (vm_compute; reflexivity).
  rewrite forallb_forall in Hall.
  specialize (Hall (Z.to_nat (n - 100))).
  rewrite Z2Nat.id in Hall by lia.
  replace (100 + (n - 100))%Z with n in Hall by lia.
  apply Hall. apply in_seq. lia.
Qed.

(** X20. The name that [sanitizeName] returns, on a draw of [Math.random()]
    in [[0, 1)], does not start with white space, and its only white space
    is single spaces, each after a code unit that is not white space: tabs,
    line ends and no-break spaces of the raw name are gone, and so are runs
    of spaces. (A space may end the name, when the cut at 20 falls after
    it.) *)
Theorem sanitizeName_single_spaced (r : Q) (raw : option string) :
  (0 <= r < 1)%Q -> single_spaced (sanitizeName r raw) = true.
Proof.
  intros Hr. unfold sanitizeName. rewrite collapse_trim.
  set (given := match raw with Some v => v | None => EmptyString end).
  destruct (String.eqb (JS.slice0 20 (normalizeSpec given)) EmptyString).
  - apply placeholder_single_spaced, placeholder_range, Hr.
  - destruct (slice0_prefix 20 (normalizeSpec given)) as (rest & Heq & _).
    apply (single_spaced_prefix _ rest). rewrite <- Heq.
    apply normalizeSpec_single_spaced.
Qed.

Lemma sanitizeName_single_spaced_witness :
  single_spaced (sanitizeName (1#2) (Some "  Ada    Lovelace  ")) = true /\
  sanitizeName (1#2) (Some "  Ada    Lovelace  ") = "Ada Lovelace".
Proof.
  split; [|vm_compute; reflexivity].
  apply (sanitizeName_single_spaced (1#2) (Some "  Ada    Lovelace  ") half_in_range).
Defined.

(** ** The name under which a user is stored *)

Lemma sanitizeName_length (r : Q) (raw : option string) :
  (0 <= r < 1)%Q -> (1 <= String.length (sanitizeName r raw) <= 20)%nat.
Proof.
  intros Hr. unfold sanitizeName.
  match goal with |- context [JS.slice0 20 ?s] => set (full := s) end.
  destruct (String.eqb_spec (JS.slice0 20 full) EmptyString) as [_|Hcap].
  - rewrite length_append, (three_digits _ (placeholder_range r Hr)). simpl. lia.
  - pose proof (slice0_length 20 full).
    destruct (JS.slice0 20 full); [contradiction | simpl in *; lia].
Qed.

(** X21. The name that [create_room], [join_room] and [set_name] store,
    [uniqueName] of [sanitizeName] of the raw name, on a draw of
    [Math.random()] in [[0, 1)]: it starts with the sanitized name and has
    between 1 and 23 code units (20 at most from the raw name, 3 at most of
    suffix). *)
Theorem resolved_name_bounds (r : room) (rnd : Q) (raw : option string) :
  (0 <= rnd < 1)%Q ->
  let clean := uniqueName r (sanitizeName rnd raw) in
  (1 <= String.length clean <= 23)%nat /\
  exists suffix, clean = sanitizeName rnd raw ++ suffix.
Proof.
  intros Hrnd clean. subst clean.
  pose proof (sanitizeName_length rnd raw Hrnd) as Hlen.
  set (baseName := sanitizeName rnd raw) in *.
  destruct (in_dec string_dec (JS.toLowerCase baseName) (takenNames r)) as [Hin|Hfree].
  - destruct (uniqueName_taken r baseName Hin)
      as [(i & Hi & Heq & _) | [Heq _]]; rewrite Heq.
    + split; [|eexists; reflexivity]. unfold candidate.
      rewrite length_append. pose proof (suffix_digits i Hi). simpl. lia.
    + split; [|eexists; reflexivity]. rewrite length_append. simpl. lia.
  - rewrite (uniqueName_free r baseName Hfree).
    split; [lia | exists EmptyString; now rewrite append_nil_r].
Qed.

Lemma resolved_name_bounds_witness :
  (1 <= String.length (uniqueName demo_solo (sanitizeName (1#2) (Some " alex "))) <= 23)%nat.
Proof.
  apply (resolved_name_bounds demo_solo (1#2) (Some " alex ") half_in_range).
Defined.
